(** * The virtual file system of the browser development environment:
      file table, snapshot history, change set, preview resolution and
      archive import/export.

    A shallow embedding of the state container in [src/store.ts] and of the
    handlers of the orchestrator panel ([src/unnamed/part_004]) that read and
    write it, together with the properties the specification states about
    them. *)

From Stdlib Require Import ZArith Lia String Ascii List.
From stdpp Require Import gmap strings list fin_maps.

Local Open Scope string_scope.
Local Open Scope list_scope.
Local Open Scope Z_scope.

Local Set Warnings "-register-all".

(** ** The virtual file table

    [FileSystemState = Record<string, string | null>]: a JavaScript object
    used as a map from path to content.  A key that is absent reads as
    [undefined] (lookup gives [None]); a key bound to [null] is a file known
    to exist remotely whose content was not fetched yet (lookup gives
    [Some None]); a key bound to text gives [Some (Some text)].  The map
    holds the keys that the object binds itself; what a read finds through
    the prototype of the object is in [JsObject] below.  The key enumeration
    order of the object is not part of the model. *)

Abbreviation FileSystemState := (gmap string (option string)).

(** ** JavaScript array primitives used by the store *)

Module JsArray.
Section JsArray.
Context {A : Type}.

(** [arr[i]]: [undefined] outside of [0 .. length-1]. *)
Definition index (arr : list A) (i : Z) : option A :=
  if i <? 0 then None else arr !! Z.to_nat i.

(** [arr.slice(0, e)]: a negative end counts from the end of the array,
    and the end is clamped to the length. *)
Definition slice0 (arr : list A) (e : Z) : list A :=
  let len := Z.of_nat (length arr) in
  let final := if e <? 0 then Z.max (len + e) 0 else Z.min e len in
  take (Z.to_nat final) arr.
End JsArray.
End JsArray.

(** ** The store: live table, snapshot history and cursor ([src/store.ts]) *)

(** The three fields of [StoreState] that the undo/redo log consists of.  The
    live table is optional because [undo] and [redo] assign
    [fileSystemHistory[newIndex]], which is [undefined] when the cursor does
    not point into the history. *)
Record StoreState := mkStore {
  fileSystem : option FileSystemState;
  fileSystemHistory : list FileSystemState;
  currentHistoryIndex : Z
}.

(** The store before [loadStateFromDB] has run. *)
Definition emptyStore : StoreState :=
  {| fileSystem := Some ∅; fileSystemHistory := []; currentHistoryIndex := -1 |}.

(** What both branches of [loadStateFromDB] set for the history: the loaded
    table (the saved one with the current README and template registry put
    into it, or the initial one) is the live table and the only snapshot. *)
Definition loadStateFromDB (loadedFs : FileSystemState) : StoreState :=
  {| fileSystem := Some loadedFs;
     fileSystemHistory := [loadedFs];
     currentHistoryIndex := 0 |}.

Definition setFileSystem (fs : FileSystemState) (snapshot : bool)
    (state : StoreState) : StoreState :=
  if snapshot then
    let newHistory :=
      JsArray.slice0 (fileSystemHistory state) (currentHistoryIndex state + 1)
        ++ [fs] in
    {| fileSystem := Some fs;
       fileSystemHistory := newHistory;
       currentHistoryIndex := Z.of_nat (length newHistory) - 1 |}
  else
    {| fileSystem := Some fs;
       fileSystemHistory := fileSystemHistory state;
       currentHistoryIndex := currentHistoryIndex state |}.

Definition undo (state : StoreState) : StoreState :=
  if 0 <? currentHistoryIndex state then
    let newIndex := currentHistoryIndex state - 1 in
    {| fileSystem := JsArray.index (fileSystemHistory state) newIndex;
       fileSystemHistory := fileSystemHistory state;
       currentHistoryIndex := newIndex |}
  else state.

Definition redo (state : StoreState) : StoreState :=
  if currentHistoryIndex state <? Z.of_nat (length (fileSystemHistory state)) - 1 then
    let newIndex := currentHistoryIndex state + 1 in
    {| fileSystem := JsArray.index (fileSystemHistory state) newIndex;
       fileSystemHistory := fileSystemHistory state;
       currentHistoryIndex := newIndex |}
  else state.

Definition canUndo (state : StoreState) : bool :=
  0 <? currentHistoryIndex state.

Definition canRedo (state : StoreState) : bool :=
  currentHistoryIndex state <? Z.of_nat (length (fileSystemHistory state)) - 1.

(** A run of writes, all with the same [snapshot] flag, oldest first. *)
Definition writes (snapshot : bool) (tables : list FileSystemState)
    (state : StoreState) : StoreState :=
  foldl (fun st fs => setFileSystem fs snapshot st) state tables.

(** The live table is the snapshot under the cursor. *)
Definition synced (state : StoreState) : Prop :=
  fileSystem state
  = JsArray.index (fileSystemHistory state) (currentHistoryIndex state).

(** The cursor points at the last snapshot of a non-empty history. *)
Definition at_last (state : StoreState) : Prop :=
  0 <= currentHistoryIndex state
  /\ currentHistoryIndex state = Z.of_nat (length (fileSystemHistory state)) - 1.

(** ** JavaScript string primitives

    Strings are byte strings holding the UTF-8 form of the program's text.
    Positions agree with JavaScript's on ASCII text; the handlers only cut
    at positions of the ASCII character [/]. *)

Module JsString.
Definition slash : ascii := "/"%char.

(** [s.startsWith(t)] *)
Definition startsWith (s t : string) : bool := String.prefix t s.

(** [s.endsWith(t)] *)
Definition endsWith (s t : string) : bool :=
  let n := String.length s in
  let m := String.length t in
  if (m <=? n)%nat then String.eqb (String.substring (n - m) m s) t else false.

(** [s.includes(t)] *)
Definition includes (s t : string) : bool :=
  match String.index 0 t s with Some _ => true | None => false end.

Fixpoint lastIndexOf_from (i : Z) (s : string) (c : ascii) (found : Z) : Z :=
  match s with
  | EmptyString => found
  | String a s' =>
      lastIndexOf_from (i + 1) s' c (if Ascii.eqb a c then i else found)
  end.

(** [s.lastIndexOf(c)] for a one-character pattern: [-1] when absent. *)
Definition lastIndexOf (s : string) (c : ascii) : Z :=
  lastIndexOf_from 0 s c (-1).

Definition clamp (i : Z) (s : string) : nat :=
  Z.to_nat (Z.max 0 (Z.min i (Z.of_nat (String.length s)))).

(** [s.substring(a, b)]: both ends are clamped to [0 .. length] and
    swapped when [a > b]. *)
Definition substring (s : string) (a b : Z) : string :=
  let a' := clamp a s in
  let b' := clamp b s in
  String.substring (Nat.min a' b') (Nat.max a' b' - Nat.min a' b') s.

(** [s.substring(a)] *)
Definition substringFrom (s : string) (a : Z) : string :=
  substring s a (Z.of_nat (String.length s)).

(** [s.slice(0, -1)] *)
Definition dropLast (s : string) : string :=
  String.substring 0 (String.length s - 1) s.

(** [s.replace(pattern, replacement)] with a string pattern and a
    replacement without [$]: only the first occurrence is replaced. *)
Definition replace (s pattern replacement : string) : string :=
  match String.index 0 pattern s with
  | Some i =>
      String.substring 0 i s +:+ replacement
        +:+ String.substring (i + String.length pattern)
              (String.length s - (i + String.length pattern)) s
  | None => s
  end.

(** [s.replace(/c/g, replacement)] for a one-character pattern. *)
Fixpoint replaceAll (s : string) (c : ascii) (replacement : string) : string :=
  match s with
  | EmptyString => EmptyString
  | String a s' =>
      (if Ascii.eqb a c then replacement else String a EmptyString)
        +:+ replaceAll s' c replacement
  end.

Definition bytes (codes : list nat) : string :=
  string_of_list_ascii (map ascii_of_nat codes).

(** The white space and line terminators that [trim] removes, in UTF-8:
    U+0009..U+000D, U+0020, U+00A0, U+1680, U+2000..U+200A, U+2028, U+2029,
    U+202F, U+205F, U+3000 and U+FEFF. *)
Definition whiteSpace : list string :=
  map bytes
    [ [9]; [10]; [11]; [12]; [13]; [32]; [194; 160]; [225; 154; 128];
      [226; 128; 128]; [226; 128; 129]; [226; 128; 130]; [226; 128; 131];
      [226; 128; 132]; [226; 128; 133]; [226; 128; 134]; [226; 128; 135];
      [226; 128; 136]; [226; 128; 137]; [226; 128; 138]; [226; 128; 168];
      [226; 128; 169]; [226; 128; 175]; [226; 129; 159]; [227; 128; 128];
      [239; 187; 191] ]%nat.

Fixpoint trimStart_fuel (fuel : nat) (s : string) : string :=
  match fuel with
  | O => s
  | S fuel' =>
      match List.find (startsWith s) whiteSpace with
      | Some w =>
          trimStart_fuel fuel'
            (String.substring (String.length w)
               (String.length s - String.length w) s)
      | None => s
      end
  end.

Fixpoint trimEnd_fuel (fuel : nat) (s : string) : string :=
  match fuel with
  | O => s
  | S fuel' =>
      match List.find (endsWith s) whiteSpace with
      | Some w =>
          trimEnd_fuel fuel'
            (String.substring 0 (String.length s - String.length w) s)
      | None => s
      end
  end.

(** [s.trim()]; each step removes at least one byte, so the length of the
    string is enough fuel. *)
Definition trim (s : string) : string :=
  let s' := trimStart_fuel (String.length s) s in
  trimEnd_fuel (String.length s') s'.

Definition lowerAscii (a : ascii) : ascii :=
  let n := nat_of_ascii a in
  if ((65 <=? n) && (n <=? 90))%nat then ascii_of_nat (n + 32) else a.

(** ASCII lower-casing, as used by ASCII case-insensitive matching. *)
Fixpoint toAsciiLowerCase (s : string) : string :=
  match s with
  | EmptyString => EmptyString
  | String a s' => String (lowerAscii a) (toAsciiLowerCase s')
  end.
End JsString.

(** ** Reading and writing a plain object

    Every table is a plain object (made by an object literal, a spread or
    the structured clone of one), so its prototype is [Object.prototype]: a
    key that the object does not bind itself is looked up there. *)

Module JsObject.
(** The property names of [Object.prototype], as the language standard
    (with its annex for browsers) lists them. *)
Definition prototypeNames : list string :=
  [ "constructor"; "hasOwnProperty"; "isPrototypeOf"; "propertyIsEnumerable";
    "toLocaleString"; "toString"; "valueOf"; "__proto__"; "__defineGetter__";
    "__defineSetter__"; "__lookupGetter__"; "__lookupSetter__" ].

Definition inherited (key : string) : bool :=
  bool_decide (key ∈ prototypeNames).

(** What [obj[key]] evaluates to: the value that the object binds, the
    value found in the prototype (a function, or the prototype object itself
    for [__proto__]; the same value for every table), or [undefined]. *)
Inductive Value (A : Type) :=
| Own (value : A)
| Inherited
| Undefined.
Arguments Own {A} value.
Arguments Inherited {A}.
Arguments Undefined {A}.

#[global] Instance Value_eq_dec {A} `{EqDecision A} : EqDecision (Value A).
Proof. solve_decision. Defined.

(** [obj[key]] *)
Definition get {A} (obj : gmap string A) (key : string) : Value A :=
  match obj !! key with
  | Some value => Own value
  | None => if inherited key then Inherited else Undefined
  end.

(** [obj[key] = value] for a value that is a string: on an object that
    does not bind [__proto__] itself, the assignment to that key runs the
    setter of the prototype, which ignores a string and binds nothing.  (An
    object literal with a computed key, [{...obj, [key]: value}], binds the
    key whatever it is: that is [<[key := value]> obj].) *)
Definition set {A} (key : string) (value : A) (obj : gmap string A)
    : gmap string A :=
  match obj !! key with
  | Some _ => <[key := value]> obj
  | None => if String.eqb key "__proto__" then obj else <[key := value]> obj
  end.
End JsObject.

(** ** The changed-files calculator ([useStore.subscribe] in [src/store.ts]) *)

Inductive FileStatus := modified | added | deleted.

Record FileChange := mkChange { path : string; status : FileStatus }.

#[global] Instance FileStatus_eq_dec : EqDecision FileStatus.
Proof. solve_decision. Defined.

#[global] Instance FileChange_eq_dec : EqDecision FileChange.
Proof. solve_decision. Defined.

(** The body of the [forEach] callback for one path: the status pushed for
    it, if any.  The two reads are reads of plain objects; [!==] on what they
    give ([undefined], [null], a string, or a value of the prototype) is
    structural inequality. *)
Definition statusOf (initialGithubFileSystem fileSystem : FileSystemState)
    (path : string) : option FileStatus :=
  let initialContent := JsObject.get initialGithubFileSystem path in
  let currentContent := JsObject.get fileSystem path in
  if bool_decide (initialContent = JsObject.Undefined)
     && bool_decide (currentContent <> JsObject.Undefined)
  then Some added
  else if bool_decide (initialContent <> JsObject.Undefined)
          && bool_decide (currentContent = JsObject.Undefined)
  then Some deleted
  else if bool_decide (initialContent <> currentContent)
  then Some modified
  else None.

(** [new Set([...Object.keys(initial), ...Object.keys(current)])], in the
    enumeration order of the key set. *)
Definition allPaths (initialGithubFileSystem fileSystem : FileSystemState)
    : list string :=
  elements (dom initialGithubFileSystem ∪ dom fileSystem).

Definition isPlaceholderPath (path : string) : bool :=
  JsString.endsWith path "/.placeholder".

(** The list stored in [changedFiles] for a live table and a remote baseline
    ([None] is the baseline [null] of a store not connected to a
    repository). *)
Definition changedFiles (fileSystem : FileSystemState)
    (initialGithubFileSystem : option FileSystemState) : list FileChange :=
  match initialGithubFileSystem with
  | None => []
  | Some initial =>
      let changes :=
        omap (fun path => mkChange path <$> statusOf initial fileSystem path)
          (allPaths initial fileSystem) in
      List.filter (fun c => negb (isPlaceholderPath (path c))) changes
  end.

(** ** The platform's URL parser

    [new URL(input, base).pathname] as the URL Standard defines it, for the
    bases that [resolvePath] builds ([file://] followed by a directory path)
    and references without a scheme and without a host part.  The result is
    [None] outside of that fragment: a base with a host, a reference that
    starts with a scheme or with two slashes (where the constructor may also
    throw). *)

Module URL.
Definition code (a : ascii) : nat := nat_of_ascii a.

Definition isC0ControlOrSpace (a : ascii) : bool := (code a <=? 32)%nat.

Definition isTabOrNewline (a : ascii) : bool :=
  ((code a =? 9) || (code a =? 10) || (code a =? 13))%nat.

Definition isAlpha (a : ascii) : bool :=
  (((65 <=? code a) && (code a <=? 90))
   || ((97 <=? code a) && (code a <=? 122)))%nat.

Definition isDigit (a : ascii) : bool :=
  ((48 <=? code a) && (code a <=? 57))%nat.

Definition isSlash (a : ascii) : bool :=
  Ascii.eqb a "/" || Ascii.eqb a "\".

Definition isQueryOrFragment (a : ascii) : bool :=
  Ascii.eqb a "?" || Ascii.eqb a "#".

Fixpoint dropLeading (l : list ascii) : list ascii :=
  match l with
  | a :: l' => if isC0ControlOrSpace a then dropLeading l' else l
  | [] => []
  end.

(** Leading and trailing C0 controls and spaces are removed, then every
    tab and newline. *)
Definition preprocess (s : string) : list ascii :=
  let stripped := rev (dropLeading (rev (dropLeading (list_ascii_of_string s)))) in
  List.filter (fun a => negb (isTabOrNewline a)) stripped.

Fixpoint schemeRest (l : list ascii) : bool :=
  match l with
  | [] => false
  | a :: l' =>
      if Ascii.eqb a ":" then true
      else if isAlpha a || isDigit a || Ascii.eqb a "+" || Ascii.eqb a "-"
              || Ascii.eqb a "."
      then schemeRest l'
      else false
  end.

(** The scheme start and scheme states find a scheme. *)
Definition hasScheme (l : list ascii) : bool :=
  match l with
  | a :: l' => isAlpha a && schemeRest l'
  | [] => false
  end.

Definition isWindowsDriveLetter (l : list ascii) : bool :=
  match l with
  | [a; b] => isAlpha a && (Ascii.eqb b ":" || Ascii.eqb b "|")
  | _ => false
  end.

Definition isNormalizedWindowsDriveLetter (l : list ascii) : bool :=
  match l with
  | [a; b] => isAlpha a && Ascii.eqb b ":"
  | _ => false
  end.

Definition startsWithWindowsDriveLetter (l : list ascii) : bool :=
  match l with
  | a :: b :: rest =>
      isWindowsDriveLetter [a; b]
      && match rest with
         | [] => true
         | c :: _ => isSlash c || isQueryOrFragment c
         end
  | _ => false
  end.

(** Shorten the path of a [file] URL. *)
Definition shorten (path : list (list ascii)) : list (list ascii) :=
  match path with
  | [segment] =>
      if isNormalizedWindowsDriveLetter segment then path else []
  | _ => removelast path
  end.

Definition hexDigit (n : nat) : ascii :=
  if (n <? 10)%nat then ascii_of_nat (48 + n) else ascii_of_nat (55 + n).

(** The path percent-encode set, on the bytes of the UTF-8 form. *)
Definition inPathPercentEncodeSet (a : ascii) : bool :=
  ((code a <=? 32) || (126 <? code a))%nat
  || existsb (Ascii.eqb a) ["034"; "#"; "<"; ">"; "?"; "^"; "`"; "{"; "}"]%char.

Definition percentEncode (a : ascii) : list ascii :=
  if inPathPercentEncodeSet a
  then ["%"%char; hexDigit (code a / 16); hexDigit (code a mod 16)]
  else [a].

Definition lower (l : list ascii) : list ascii := map JsString.lowerAscii l.

Definition isSingleDot (buffer : list ascii) : bool :=
  let b := string_of_list_ascii (lower buffer) in
  String.eqb b "." || String.eqb b "%2e".

Definition isDoubleDot (buffer : list ascii) : bool :=
  let b := string_of_list_ascii (lower buffer) in
  String.eqb b ".." || String.eqb b ".%2e" || String.eqb b "%2e."
  || String.eqb b "%2e%2e".

(** The path state at the end of a segment; [slash] tells whether the
    segment was ended by a slash (rather than by the end of the input, a
    query or a fragment). *)
Definition endSegment (slash : bool) (buffer : list ascii)
    (path : list (list ascii)) : list (list ascii) :=
  if isDoubleDot buffer then
    if slash then shorten path else shorten path ++ [[]]
  else if isSingleDot buffer then
    if slash then path else path ++ [[]]
  else
    match path, buffer with
    | [], [a; b] =>
        if isWindowsDriveLetter buffer then [[a; ":"%char]] else [buffer]
    | _, _ => path ++ [buffer]
    end.

(** The path state, up to the query or fragment. *)
Fixpoint pathState (input buffer : list ascii) (path : list (list ascii))
    : list (list ascii) :=
  match input with
  | [] => endSegment false buffer path
  | c :: rest =>
      if isSlash c then pathState rest [] (endSegment true buffer path)
      else if isQueryOrFragment c then endSegment false buffer path
      else pathState rest (buffer ++ percentEncode c) path
  end.

(** The path of a base [file://...] with an empty host. *)
Definition basePath (base : string) : option (list (list ascii)) :=
  let b := preprocess base in
  if String.prefix "file://" (string_of_list_ascii b) then
    match skipn 7 b with
    | [] => Some (pathState [] [] [])
    | c :: rest =>
        if isSlash c then Some (pathState rest [] [])
        else if isQueryOrFragment c then Some (pathState (c :: rest) [] [])
        else None
    end
  else None.

(** The no scheme, file and file slash states for a reference against a
    [file] base with path [base]. *)
Definition fileState (input : list ascii) (base : list (list ascii))
    : option (list (list ascii)) :=
  match input with
  | [] => Some base
  | c :: rest =>
      if isSlash c then
        if match rest with c' :: _ => isSlash c' | [] => false end then None
        else
          Some (pathState rest []
                  (match base with
                   | drive :: _ =>
                       if negb (startsWithWindowsDriveLetter rest)
                          && isNormalizedWindowsDriveLetter drive
                       then [drive] else []
                   | [] => []
                   end))
      else if isQueryOrFragment c then Some base
      else
        Some (pathState input []
                (if startsWithWindowsDriveLetter input then []
                 else shorten base))
  end.

(** The URL path serializer: every segment preceded by a slash. *)
Definition serialize (path : list (list ascii)) : string :=
  string_of_list_ascii (concat (map (fun segment => "/"%char :: segment) path)).

Definition pathname (input base : string) : option string :=
  match basePath base with
  | None => None
  | Some b =>
      let l := preprocess input in
      if hasScheme l then None
      else serialize <$> fileState l b
  end.
End URL.

(** ** The path resolver ([resolvePath] in the orchestrator panel)

    [pathname] stands for [new URL(relative, base).pathname]; [None] is
    propagated where the platform gives no path name. *)

Definition resolvePathWith (pathname : string -> string -> option string)
    (base relative : string) : option string :=
  let baseDir :=
    if JsString.endsWith base "/" then base
    else JsString.substring base 0
           (JsString.lastIndexOf base JsString.slash + 1) in
  match pathname relative ("file://" +:+ baseDir) with
  | Some path =>
      Some (if JsString.startsWith path "/" then path else "/" +:+ path)
  | None => None
  end.

Definition resolvePath : string -> string -> option string :=
  resolvePathWith URL.pathname.

(** ** The document tree the preview works on

    The part of the DOM that [updatePreview] touches: elements with their
    attributes and children, text and comments, all in the HTML namespace.  A
    document is given by its document element. *)

Module Dom.
Inductive Node :=
| Element (localName : string) (attributes : list (string * string))
    (childNodes : list Node)
| Text (data : string)
| Comment (data : string).

(** [element.getAttribute(name)]: [None] is [null]. *)
Definition getAttribute (name : string) (attributes : list (string * string))
    : option string :=
  snd <$> List.find (fun a => String.eqb (fst a) name) attributes.

(** [element.removeAttribute(name)] *)
Definition removeAttribute (name : string)
    (attributes : list (string * string)) : list (string * string) :=
  List.filter (fun a => negb (String.eqb (fst a) name)) attributes.

(** The children after [element.textContent = text] on a new element: one
    text node, none for the empty string. *)
Definition textContent (text : string) : list Node :=
  if String.eqb text "" then [] else [Text text].

(** The selector [link[rel="stylesheet"]]; in an HTML document the value of
    [rel] is compared ASCII case-insensitively. *)
Definition isStylesheetLink (localName : string)
    (attributes : list (string * string)) : bool :=
  String.eqb localName "link"
  && match getAttribute "rel" attributes with
     | Some rel => String.eqb (JsString.toAsciiLowerCase rel) "stylesheet"
     | None => false
     end.

(** [doc.head.appendChild(style)] for each style in turn: the first [head]
    child of the [html] document element receives them; without one
    [doc.head] is [null] and the call throws. *)
Fixpoint appendToFirstHead (styles : list Node) (children : list Node)
    : option (list Node) :=
  match children with
  | [] => None
  | Element name attributes grandchildren :: rest =>
      if String.eqb name "head"
      then Some (Element name attributes (grandchildren ++ styles) :: rest)
      else cons (Element name attributes grandchildren)
             <$> appendToFirstHead styles rest
  | other :: rest => cons other <$> appendToFirstHead styles rest
  end.

Definition appendToHead (styles : list Node) (documentElement : Node)
    : option Node :=
  match styles, documentElement with
  | [], _ => Some documentElement
  | _, Element name attributes children =>
      if String.eqb name "html"
      then Element name attributes <$> appendToFirstHead styles children
      else None
  | _, _ => None
  end.

Definition voidElements : list string :=
  [ "area"; "base"; "basefont"; "bgsound"; "br"; "col"; "embed"; "frame";
    "hr"; "img"; "input"; "keygen"; "link"; "meta"; "param"; "source";
    "track"; "wbr" ].

(** The elements whose text children are serialized as they are (scripting
    is disabled in a document made by [DOMParser], so [noscript] is not
    among them). *)
Definition rawTextElements : list string :=
  [ "style"; "script"; "xmp"; "iframe"; "noembed"; "noframes"; "plaintext" ].

Definition memberb (s : string) (l : list string) : bool :=
  existsb (String.eqb s) l.

(** Escaping a string: [&], the no-break space (bytes 194, 160), and in
    attribute mode the double quote, [<] and [>]; otherwise [<] and [>]. *)
Fixpoint escape (attributeMode : bool) (s : string) : string :=
  match s with
  | EmptyString => EmptyString
  | String a s' =>
      if Ascii.eqb a "&" then "&amp;" +:+ escape attributeMode s'
      else if Ascii.eqb a "<" then "&lt;" +:+ escape attributeMode s'
      else if Ascii.eqb a ">" then "&gt;" +:+ escape attributeMode s'
      else if attributeMode && Ascii.eqb a "034"
      then "&quot;" +:+ escape attributeMode s'
      else
        match s' with
        | String b s'' =>
            if Ascii.eqb a (ascii_of_nat 194) && Ascii.eqb b (ascii_of_nat 160)
            then "&nbsp;" +:+ escape attributeMode s''
            else String a (escape attributeMode s')
        | EmptyString => String a EmptyString
        end
  end.

Definition quote : string := String "034" EmptyString.

Definition serializeAttributes (attributes : list (string * string)) : string :=
  String.concat ""
    (map (fun a => " " +:+ fst a +:+ "=" +:+ quote +:+ escape true (snd a)
                     +:+ quote)
       attributes).

(** [node.outerHTML]: the HTML fragment serialization of the node;
    [rawParent] tells whether the parent is one of [rawTextElements]. *)
Fixpoint serialize (rawParent : bool) (n : Node) : string :=
  match n with
  | Element name attributes children =>
      "<" +:+ name +:+ serializeAttributes attributes +:+ ">"
      +:+ (if memberb name voidElements then ""
           else String.concat ""
                  (map (serialize (memberb name rawTextElements)) children)
                +:+ "</" +:+ name +:+ ">")
  | Text data => if rawParent then data else escape false data
  | Comment data => "<!--" +:+ data +:+ "-->"
  end.

Definition outerHTML (n : Node) : string := serialize false n.
End Dom.

(** ** The preview resolver ([updatePreview] in the orchestrator panel) *)

(** What a loop body decides for one [link] or [script] element: replace it
    by the content found in the table, leave it, or stop because the URL
    constructor gives no path for its reference (it throws, and nothing
    catches that in the handler). *)
Inductive Inlining := Inline (content : string) | Keep | NoPath.

Section Preview.
(** [new URL(relative, base).pathname]: [None] when the constructor
    throws. *)
Variable pathname : string -> string -> option string.

(** [new DOMParser().parseFromString(text, 'text/html')], given by the
    document element of the result, and [marked.parse]. *)
Variable parseFromString : string -> Dom.Node.
Variable markedParse : string -> string.

Variable fileSystem : FileSystemState.

(** [typeof fileSystem[path] === 'string'] with the content. *)
Definition textAt (path : string) : option string :=
  match fileSystem !! path with
  | Some (Some content) => Some content
  | _ => None
  end.

(** The guard and lookup both loops share: a reference that is present,
    not empty and does not start with [http] is resolved against the HTML
    file and looked up in the table. *)
Definition inliningWith (htmlPath : string) (reference : option string)
    : Inlining :=
  match reference with
  | Some ref =>
      if negb (String.eqb ref "") && negb (JsString.startsWith ref "http")
      then
        match resolvePathWith pathname htmlPath ref with
        | Some filePath =>
            match textAt filePath with
            | Some content => Inline content
            | None => Keep
            end
        | None => NoPath
        end
      else Keep
  | None => Keep
  end.

(** The first loop, over the stylesheet links in document order: the style
    texts to append to the head, and what is left of the node (nothing when
    the link was removed). *)
Fixpoint inlineLinksWith (htmlPath : string) (n : Dom.Node)
    : option (list string * list Dom.Node) :=
  match n with
  | Dom.Element name attributes children =>
      let inner :=
        (fix go (l : list Dom.Node) : option (list string * list Dom.Node) :=
           match l with
           | [] => Some ([], [])
           | c :: l' =>
               match inlineLinksWith htmlPath c, go l' with
               | Some (s1, n1), Some (s2, n2) => Some (s1 ++ s2, n1 ++ n2)
               | _, _ => None
               end
           end) children in
      match inner with
      | None => None
      | Some (styles, children') =>
          if Dom.isStylesheetLink name attributes then
            match inliningWith htmlPath (Dom.getAttribute "href" attributes) with
            | Inline css => Some (css :: styles, [])
            | Keep => Some (styles, [Dom.Element name attributes children'])
            | NoPath => None
            end
          else Some (styles, [Dom.Element name attributes children'])
      end
  | other => Some ([], [other])
  end.

(** The second loop, over the script elements in document order: a script
    whose source is in the table is replaced by a new script element with
    the same attributes except [src] and the source as its text. *)
Fixpoint inlineScriptsWith (htmlPath : string) (n : Dom.Node) : option Dom.Node :=
  match n with
  | Dom.Element name attributes children =>
      let inner :=
        (fix go (l : list Dom.Node) : option (list Dom.Node) :=
           match l with
           | [] => Some []
           | c :: l' =>
               match inlineScriptsWith htmlPath c, go l' with
               | Some c', Some l'' => Some (c' :: l'')
               | _, _ => None
               end
           end) children in
      match inner with
      | None => None
      | Some children' =>
          if String.eqb name "script" then
            match inliningWith htmlPath (Dom.getAttribute "src" attributes) with
            | Inline js =>
                Some (Dom.Element "script"
                        (Dom.removeAttribute "src" attributes)
                        (Dom.textContent js))
            | Keep => Some (Dom.Element name attributes children')
            | NoPath => None
            end
          else Some (Dom.Element name attributes children')
      end
  | other => Some other
  end.

Definition styleElement (css : string) : Dom.Node :=
  Dom.Element "style" [] (Dom.textContent css).

(** The HTML branch: both loops, then the serialized document. *)
Definition htmlSrcDocWith (htmlPath indexHtml : string) : option string :=
  match inlineLinksWith htmlPath (parseFromString indexHtml) with
  | Some (styles, [documentElement]) =>
      match Dom.appendToHead (map styleElement styles) documentElement with
      | Some withStyles =>
          match inlineScriptsWith htmlPath withStyles with
          | Some withScripts =>
              Some ("<!DOCTYPE html>" +:+ Dom.outerHTML withScripts)
          | None => None
          end
      | None => None
      end
  | _ => None
  end.

(** The code of the fallback branch, escaped for display. *)
Definition escapeCode (content : string) : string :=
  let s1 := JsString.replaceAll content "&" "&amp;" in
  let s2 := JsString.replaceAll s1 "<" "&lt;" in
  let s3 := JsString.replaceAll s2 ">" "&gt;" in
  let s4 := JsString.replaceAll s3 "034" "&quot;" in
  JsString.replaceAll s4 "'" "&#039;".

(** The document handed to [setSrcDoc].  The HTML branch carries the whole
    string; the other branches carry what the code substitutes into their
    fixed document shells. *)
Inductive Preview :=
| SelectRootNotice
| HtmlPreview (srcDoc : string)
| MarkdownPreview (title : string) (mdHtml : string)
| CodePreview (fileName : string) (escapedCode : string)
| NothingToPreview.

Definition scriptFileNames : list string :=
  [ "index.tsx"; "index.jsx"; "App.tsx"; "App.jsx"; "main.tsx"; "main.jsx";
    "index.ts"; "index.js"; "App.ts"; "App.js"; "main.ts"; "main.js" ].

Fixpoint firstScriptFile (paths : list string) : option (string * string) :=
  match paths with
  | [] => None
  | p :: rest =>
      match textAt p with
      | Some content => Some (p, content)
      | None => firstScriptFile rest
      end
  end.

Definition nonEmpty (o : option string) : bool :=
  match o with
  | Some s => negb (String.eqb s "")
  | None => false
  end.

(** [basePath]: the preview root with a closing slash. *)
Definition previewBasePath (root : string) : string :=
  if String.eqb root "/" then "/"
  else if JsString.endsWith root "/" then root else root +:+ "/".

(** [updatePreview]: the document handed to [setSrcDoc].  The result is
    [None] when the handler throws and [srcDoc] stays as it was: when
    [doc.head] is missing for a style to append, and when the URL constructor
    throws for a reference. *)
Definition updatePreviewWith (previewRoot : option string) : option Preview :=
  match previewRoot with
  | None => Some SelectRootNotice
  | Some root =>
      if String.eqb root "" then Some SelectRootNotice else
      let basePath := previewBasePath root in
      let htmlPath := basePath +:+ "index.html" in
      let readmeMd := textAt (basePath +:+ "README.md") in
      let indexMd := textAt (basePath +:+ "index.md") in
      let scriptFileToRender :=
        firstScriptFile (map (String.append basePath) scriptFileNames) in
      match textAt htmlPath with
      | Some indexHtml => HtmlPreview <$> htmlSrcDocWith htmlPath indexHtml
      | None =>
          if bool_decide (is_Some readmeMd) || bool_decide (is_Some indexMd)
          then
            let mdContent :=
              if nonEmpty readmeMd then default "" readmeMd
              else if nonEmpty indexMd then default "" indexMd
              else "" in
            Some (MarkdownPreview
                    (if nonEmpty readmeMd then "README.md" else "index.md")
                    (markedParse mdContent))
          else
            match scriptFileToRender with
            | Some (scriptPath, content) =>
                Some (CodePreview
                        (JsString.substringFrom scriptPath
                           (JsString.lastIndexOf scriptPath JsString.slash + 1))
                        (escapeCode content))
            | None => Some NothingToPreview
            end
      end
  end.
End Preview.

(** [updatePreview] with the model of the URL parser above: outside of the
    fragment that the model covers the result is [None] as well. *)
Definition updatePreview
    : (string -> Dom.Node) -> (string -> string) -> FileSystemState ->
      option string -> option Preview :=
  updatePreviewWith URL.pathname.

(** ** Archives

    An archive is modelled by the member table of the [JSZip] instance that
    holds it (its [files] object): member name to entry.  The library is not
    part of the repository; [zip.file] and what it calls are modelled on
    JSZip 3, where [createFolders] is on by default, so that adding a file
    also records a folder member for every parent directory of its name.
    For an archive with plain member names, as in the example of the
    specification, loading what [generateAsync] wrote gives the same
    members. *)

Module JSZip.
(** [dir]: the entry is a folder; [asyncString]: what
    [entry.async('string')] resolves to, [None] when it rejects. *)
Record ZipObject := mkEntry { dir : bool; asyncString : option string }.

Definition textFile (content : string) : ZipObject :=
  {| dir := false; asyncString := Some content |}.

(** The entry recorded for a folder: it has no data. *)
Definition folder : ZipObject := {| dir := true; asyncString := Some "" |}.

(** [forceTrailingSlash(path)] *)
Definition forceTrailingSlash (path : string) : string :=
  if JsString.endsWith path "/" then path else path +:+ "/".

(** [parentFolder(path)]: the path up to its last slash, a closing slash
    not counted; empty when there is no such slash or it comes first. *)
Definition parentFolder (path : string) : string :=
  let path' :=
    if JsString.endsWith path "/" then JsString.dropLast path else path in
  let lastSlash := JsString.lastIndexOf path' JsString.slash in
  if 0 <? lastSlash then JsString.substring path' 0 lastSlash else "".

(** [folderAdd(name, true)]: a folder that the archive holds already is left
    alone; otherwise the folders above it are added first, then the folder
    itself.  Every call is on a shorter name than the one before; [fuel]
    bounds the number of calls. *)
Fixpoint folderAdd (fuel : nat) (name : string) (files : gmap string ZipObject)
    : gmap string ZipObject :=
  let name := forceTrailingSlash name in
  match files !! name with
  | Some _ => files
  | None =>
      let parent := parentFolder name in
      let files :=
        match fuel with
        | S fuel' =>
            if String.eqb parent "" then files else folderAdd fuel' parent files
        | O => files
        end in
      <[name := folder]> files
  end.

(** [zip.file(name, content)] for text: the folders above the name, then
    the file itself, which replaces what the name was bound to. *)
Definition file (name content : string) (files : gmap string ZipObject)
    : gmap string ZipObject :=
  let parent := parentFolder name in
  let files :=
    if String.eqb parent "" then files
    else folderAdd (String.length name) parent files in
  <[name := textFile content]> files.

(** The names that [folderAdd(name, true)] goes through: the folder and
    those above it. *)
Fixpoint folders (fuel : nat) (name : string) : list string :=
  let name := forceTrailingSlash name in
  name :: match fuel with
          | S fuel' =>
              let parent := parentFolder name in
              if String.eqb parent "" then [] else folders fuel' parent
          | O => []
          end.

(** The folders above a member name. *)
Definition parentFolders (name : string) : list string :=
  let parent := parentFolder name in
  if String.eqb parent "" then [] else folders (String.length name) parent.
End JSZip.

(** The member table of an archive, and its members as
    [Object.entries(contents.files)] enumerates them. *)
Abbreviation Archive := (gmap string JSZip.ZipObject).
Abbreviation ArchiveEntries := (list (string * JSZip.ZipObject)).

(** *** Export ([handleDownloadProject]) *)

(** The body of the [forEach] over the keys of the table. *)
Definition exportStep (fileSystem : FileSystemState) (zip : Archive)
    (path : string) : Archive :=
  if isPlaceholderPath path then zip
  else
    match fileSystem !! path with
    | Some (Some content) =>
        JSZip.file (JsString.substringFrom path 1) content zip
    | _ => zip
    end.

(** The archive after the loop over [paths], the keys of the table in the
    order the object enumerates them. *)
Definition exportPaths (fileSystem : FileSystemState) (paths : list string)
    : Archive :=
  foldl (exportStep fileSystem) ∅ paths.

(** The archive handed to [generateAsync], with the keys taken in the order
    of the map; the properties below state where that order plays no
    role. *)
Definition handleDownloadProject (fileSystem : FileSystemState) : Archive :=
  exportPaths fileSystem (map_to_list fileSystem).*1.

(** *** Import ([handleConfirmUnpack]) *)

(** The normalised destination, [cleanDestinationPath]. *)
Definition cleanDestinationPath (destinationPath : string) : string :=
  let trimmed := JsString.trim destinationPath in
  let rooted :=
    if negb (JsString.startsWith trimmed "/") then "/" +:+ trimmed
    else trimmed in
  let open :=
    if JsString.endsWith rooted "/" then JsString.dropLast rooted else rooted in
  if String.eqb open "/" then "" else open.

Definition fullPath (clean relativePath : string) : string :=
  JsString.replace (clean +:+ "/" +:+ relativePath) "//" "/".

(** The body of the loop over the entries of the archive.  The path written
    holds a slash, so the assignment binds it. *)
Definition unpackStep (clean : string) (newFileUpdates : FileSystemState)
    (member : string * JSZip.ZipObject) : FileSystemState :=
  let '(relativePath, entry) := member in
  if JSZip.dir entry then newFileUpdates
  else
    match JSZip.asyncString entry with
    | Some fileContent =>
        <[fullPath clean relativePath := Some fileContent]> newFileUpdates
    | None => newFileUpdates
    end.

(** [newFileUpdates] once the loop over the entries is over: a later entry
    that reaches the path of an earlier one replaces it. *)
Definition newFileUpdates (clean : string) (entries : ArchiveEntries)
    : FileSystemState :=
  foldl (unpackStep clean) ∅ entries.

(** [handleConfirmUnpack]: [fileSystem] is the table the component rendered
    with when the handler was made; [pendingZip] is [None] when no archive
    is pending, [Some None] when [loadAsync] rejects its bytes, and
    [Some (Some entries)] when they load, [entries] being the entries of the
    loaded archive in their order.  [{...fileSystem, ...newFileUpdates}] is
    the union in which the updates win. *)
Definition handleConfirmUnpack (fileSystem : FileSystemState)
    (pendingZip : option (option ArchiveEntries)) (destinationPath : string)
    (state : StoreState) : StoreState :=
  match pendingZip with
  | None => state
  | Some None => state
  | Some (Some entries) =>
      let newFs :=
        newFileUpdates (cleanDestinationPath destinationPath) entries
          ∪ fileSystem in
      setFileSystem newFs true state
  end.

(** [handleNewFile]: a path that reads as anything but [undefined] (one
    bound to text or to the unfetched marker, and also one that names a
    property of the prototype) is refused with an alert.  The selection of
    the new file that follows the write fetches nothing, the path being
    unbound in the rendered table. *)
Definition handleNewFile (fileSystem : FileSystemState) (path : string)
    (state : StoreState) : StoreState :=
  if bool_decide (JsObject.get fileSystem path <> JsObject.Undefined) then state
  else setFileSystem (<[path := Some ""]> fileSystem) true state.

(** A file member that stems from a table path. *)
Definition exported_from (fileSystem : FileSystemState) (name : string)
    (entry : JSZip.ZipObject) : Prop :=
  exists path text,
    fileSystem !! path = Some (Some text)
    /\ isPlaceholderPath path = false
    /\ name = JsString.substringFrom path 1
    /\ entry = JSZip.textFile text.

(** A folder member that is a parent directory of a file member that stems
    from a table path. *)
Definition folder_of_exported (fileSystem : FileSystemState) (name : string)
    : Prop :=
  exists path text,
    fileSystem !! path = Some (Some text)
    /\ isPlaceholderPath path = false
    /\ name ∈ JSZip.parentFolders (JsString.substringFrom path 1).

(** A member of an exported archive: a file that stems from a table path, or
    a folder above such a file. *)
Definition exported (fileSystem : FileSystemState) (name : string)
    (entry : JSZip.ZipObject) : Prop :=
  exported_from fileSystem name entry
  \/ (entry = JSZip.folder /\ folder_of_exported fileSystem name).

(** Enough fuel for [folderAdd] on a name: the names it goes through get
    shorter by one character at least. *)
Definition enough_fuel (fuel : nat) (name : string) : Prop :=
  (String.length (JSZip.forceTrailingSlash name) <= fuel + 2)%nat.

(** An archive in which every member has its parent folder. *)
Definition has_parents (files : Archive) : Prop :=
  forall name, is_Some (files !! name) -> JSZip.parentFolder name <> "" ->
    is_Some (files !! JSZip.forceTrailingSlash (JSZip.parentFolder name)).

(** A table entry that stems from a file member of an archive. *)
Definition unpacked_from (clean : string) (entries : ArchiveEntries)
    (p : string) (v : option string) : Prop :=
  exists relativePath entry text,
    (relativePath, entry) ∈ entries
    /\ JSZip.dir entry = false
    /\ JSZip.asyncString entry = Some text
    /\ p = fullPath clean relativePath
    /\ v = Some text.

(** ** Tables, documents and archives used as examples *)

Definition sample_a : FileSystemState := {[ "/a.txt" := Some "hi" ]}.
Definition sample_b : FileSystemState :=
  {[ "/a.txt" := Some "hi"; "/b.txt" := Some "" ]}.
Definition sample_c : FileSystemState :=
  {[ "/a.txt" := Some "bye"; "/b.txt" := Some "" ]}.

Definition example_html : string :=
  "<html><head><link rel=stylesheet href=s.css></head><body>hi</body></html>".

Definition example_table : FileSystemState :=
  {[ "/proj/index.html" := Some example_html;
     "/proj/s.css" := Some "body{color:red}" ]}.

(** The document that the HTML parser builds for [example_html]. *)
Definition example_document : Dom.Node :=
  Dom.Element "html" []
    [ Dom.Element "head" []
        [ Dom.Element "link" [("rel", "stylesheet"); ("href", "s.css")] [] ];
      Dom.Element "body" [] [ Dom.Text "hi" ] ].

(** The table of the export example. *)
Definition export_example : FileSystemState :=
  {[ "/a.txt" := Some "hi"; "/x/.placeholder" := Some "" ]}.

Definition import_example : ArchiveEntries :=
  [ ("a.txt", JSZip.textFile "new"); ("dir/", JSZip.folder);
    ("dir/b.txt", JSZip.textFile "B") ].

Definition import_target : FileSystemState :=
  {[ "/proj/a.txt" := Some "old"; "/keep.txt" := Some "kept" ]}.

(** ** Sequences of history operations *)

(** One call on the undo/redo log: [setFileSystem(fs, snapshot)], [undo()]
    or [redo()]. *)
Inductive HistoryAction :=
| Write (fs : FileSystemState) (snapshot : bool)
| Undo
| Redo.

Definition act (state : StoreState) (a : HistoryAction) : StoreState :=
  match a with
  | Write fs snapshot => setFileSystem fs snapshot state
  | Undo => undo state
  | Redo => redo state
  end.

(** The calls of a list, oldest first. *)
Definition run (actions : list HistoryAction) (state : StoreState) : StoreState :=
  foldl act state actions.

(** The cursor points into the history. *)
Definition in_range (state : StoreState) : Prop :=
  0 <= currentHistoryIndex state < Z.of_nat (length (fileSystemHistory state)).

(** ** The other file handlers of the orchestrator panel *)

(** [handleNewFolder]: the folder is kept by a marker file, and a folder
    whose marker reads as anything but [undefined] is refused with an
    alert. *)
Definition folderPlaceholder (path : string) : string :=
  if JsString.endsWith path "/" then path +:+ ".placeholder"
  else path +:+ "/.placeholder".

Definition handleNewFolder (fileSystem : FileSystemState) (path : string)
    (state : StoreState) : StoreState :=
  let placeholder := folderPlaceholder path in
  if bool_decide (JsObject.get fileSystem placeholder <> JsObject.Undefined)
  then state
  else setFileSystem (<[placeholder := Some ""]> fileSystem) true state.

(** The loop of [handleConfirmApplyChanges] over the proposed changes, in the
    order of the array: [newFs[path] = content] on a copy of the table. *)
Definition applyUpdates (fileSystem : FileSystemState)
    (codeUpdates : list (string * string)) : FileSystemState :=
  foldl (fun newFs update => JsObject.set update.1 (Some update.2) newFs)
    fileSystem codeUpdates.

(** A command of the simulated terminal changes the table by a list of
    actions. *)
Inductive ChangeKind := Create | Update | Delete.

Record FileSystemChangeAction := mkAction {
  action : ChangeKind;
  changePath : string;
  changeContent : option string
}.

(** The body of the [forEach] in [handleTerminalSubmit]; a missing or empty
    content is written as the empty text. *)
Definition applyChange (newFs : FileSystemState) (change : FileSystemChangeAction)
    : FileSystemState :=
  match action change with
  | Create | Update =>
      JsObject.set (changePath change)
        (Some (default "" (changeContent change))) newFs
  | Delete => delete (changePath change) newFs
  end.

(** [handleTerminalSubmit], as far as the table goes: [result] is [None]
    when [runCommandInTerminal] rejects, and holds [fileSystemChanges]
    otherwise ([None] for a result without that field). *)
Definition handleTerminalSubmit (fileSystem : FileSystemState)
    (result : option (option (list FileSystemChangeAction)))
    (state : StoreState) : StoreState :=
  match result with
  | Some (Some (change :: changes)) =>
      setFileSystem (foldl applyChange fileSystem (change :: changes)) true state
  | _ => state
  end.

(** A file handed to [handleFileUpload]: its name, what [file.text()]
    resolves to ([None] when it rejects), and for an archive the entries
    that [loadAsync] makes of its bytes ([None] when it rejects).  Reading the
    bytes of an archive ([file.arrayBuffer()]) is taken to succeed. *)
Record UploadedFile := mkUpload {
  fileName : string;
  fileText : option string;
  fileArchive : option ArchiveEntries
}.

(** The loop of [handleFileUpload]: the first file whose name ends in [.zip]
    becomes the pending archive and ends the handler; the text of each other
    file is collected under [/] followed by its name. *)
Fixpoint uploadLoop (files : list UploadedFile) (nonZipFsUpdates : FileSystemState)
    : FileSystemState + UploadedFile :=
  match files with
  | [] => inl nonZipFsUpdates
  | file :: rest =>
      if JsString.endsWith (fileName file) ".zip" then inr file
      else
        match fileText file with
        | Some content =>
            uploadLoop rest (<["/" +:+ fileName file := Some content]> nonZipFsUpdates)
        | None => uploadLoop rest nonZipFsUpdates
        end
  end.

(** [handleFileUpload]: the store afterwards and the pending archive. *)
Definition handleFileUpload (fileSystem : FileSystemState)
    (files : list UploadedFile) (state : StoreState)
    : StoreState * option UploadedFile :=
  match uploadLoop files ∅ with
  | inr zip => (state, Some zip)
  | inl nonZipFsUpdates =>
      if bool_decide (nonZipFsUpdates = ∅) then (state, None)
      else (setFileSystem (nonZipFsUpdates ∪ fileSystem) true state, None)
  end.

(** ** The handlers of the remote repository *)

(** An entry of the tree that [getRepoTree] returns (blobs with a path). *)
Record TreeItem := mkTreeItem { treePath : string; treeSha : string }.

(** The repository part of the store. *)
Record GithubState := mkGithub {
  initialGithubFileSystem : option FileSystemState;
  gitTree : list TreeItem;
  selectedRepoFullName : string;
  selectedBranchName : string
}.

(** The store as the handlers change it: the undo/redo log with the live
    table, and the repository part. *)
Record AppState := mkApp { appStore : StoreState; appGithub : GithubState }.

(** What a handler reads through the [store] object of the render it was
    created in. *)
Record Render := mkRender {
  renderFileSystem : FileSystemState;
  renderGithub : GithubState
}.

(** [handleFileSelect], as far as the tables go: an entry that is the
    unfetched marker in the rendered table, with a repository selected, is
    fetched ([getFileContent] gives [None] when the request fails) and
    written into the rendered table and the rendered baseline, which become
    the live table (without a snapshot) and the baseline. *)
Definition handleFileSelect (store : Render)
    (getFileContent : string -> option string) (path : string)
    (app : AppState) : AppState :=
  if bool_decide (renderFileSystem store !! path = Some None)
     && negb (String.eqb (selectedRepoFullName (renderGithub store)) "")
  then
    match List.find (fun item => String.eqb ("/" +:+ treePath item) path)
            (gitTree (renderGithub store)) with
    | Some treeItem =>
        match getFileContent (treeSha treeItem) with
        | Some content =>
            let newFs := <[path := Some content]> (renderFileSystem store) in
            let newInitialFs :=
              <[path := Some content]>
                (default ∅ (initialGithubFileSystem (renderGithub store))) in
            {| appStore := setFileSystem newFs false (appStore app);
               appGithub :=
                 {| initialGithubFileSystem := Some newInitialFs;
                    gitTree := gitTree (appGithub app);
                    selectedRepoFullName := selectedRepoFullName (appGithub app);
                    selectedBranchName := selectedBranchName (appGithub app) |} |}
        | None => app
        end
    | None => app
    end
  else app.

(** The decision taken in the dialog of the proposed changes. *)
Inductive ApplyDecision := ApplyAll | SaveAs (newPath : string).

(** [handleConfirmApplyChanges]: [pendingCodeChanges] is [None] for [null].
    The changes are written with a snapshot and the first changed file (or
    the new file) is selected, which may fetch it. *)
Definition handleConfirmApplyChanges (store : Render)
    (getFileContent : string -> option string)
    (pendingCodeChanges : option (list (string * string)))
    (decision : ApplyDecision) (app : AppState) : AppState :=
  match pendingCodeChanges with
  | None => app
  | Some changes =>
      match decision, changes with
      | ApplyAll, first :: _ =>
          handleFileSelect store getFileContent first.1
            {| appStore :=
                 setFileSystem (applyUpdates (renderFileSystem store) changes)
                   true (appStore app);
               appGithub := appGithub app |}
      | ApplyAll, [] =>
          {| appStore := setFileSystem (renderFileSystem store) true (appStore app);
             appGithub := appGithub app |}
      | SaveAs newPath, first :: _ =>
          handleFileSelect store getFileContent newPath
            {| appStore :=
                 setFileSystem (<[newPath := Some first.2]> (renderFileSystem store))
                   true (appStore app);
               appGithub := appGithub app |}
      | SaveAs _, [] => app
      end
  end.

(** The table that [handleLoadRepo] builds from the tree: every path of the
    tree under [/], bound to the unfetched marker. *)
Definition placeholderTable (tree : list TreeItem) : FileSystemState :=
  foldl (fun fs item => <["/" +:+ treePath item := None]> fs) ∅ tree.

(** [Object.keys(fs).find(p => p.toLowerCase().endsWith(suffix))] on the
    table built from the tree, for an ASCII suffix: the keys are in the order
    of the tree. *)
Definition findKeyEndingWith (suffix : string) (tree : list TreeItem)
    : option string :=
  List.find (fun p => JsString.endsWith (JsString.toAsciiLowerCase p) suffix)
    (map (fun item => "/" +:+ treePath item) tree).

(** [handleLoadRepo]: [tree] is [None] when [getRepoTree] fails.  The first
    [setGithubState] empties the live table and the baseline before the
    request is made. *)
Definition handleLoadRepo (store : Render) (tree : option (list TreeItem))
    (getFileContent : string -> option string) (app : AppState) : AppState :=
  if String.eqb (selectedRepoFullName (renderGithub store)) ""
     || String.eqb (selectedBranchName (renderGithub store)) ""
  then app
  else
    let cleared :=
      {| fileSystem := Some ∅;
         fileSystemHistory := fileSystemHistory (appStore app);
         currentHistoryIndex := currentHistoryIndex (appStore app) |} in
    match tree with
    | None =>
        {| appStore := cleared;
           appGithub :=
             {| initialGithubFileSystem := Some ∅;
                gitTree := [];
                selectedRepoFullName := selectedRepoFullName (appGithub app);
                selectedBranchName := selectedBranchName (appGithub app) |} |}
    | Some items =>
        let fs := placeholderTable items in
        let loaded :=
          {| appStore := setFileSystem fs true cleared;
             appGithub :=
               {| initialGithubFileSystem := Some fs;
                  gitTree := items;
                  selectedRepoFullName := selectedRepoFullName (appGithub app);
                  selectedBranchName := selectedBranchName (appGithub app) |} |} in
        match findKeyEndingWith "readme.md" items,
              findKeyEndingWith "index.html" items with
        | Some readmePath, _ =>
            handleFileSelect store getFileContent readmePath loaded
        | None, Some htmlPath =>
            handleFileSelect store getFileContent htmlPath loaded
        | None, None => loaded
        end
    end.

(** ** Values used as examples for the handlers *)

Definition sample_github : GithubState :=
  {| initialGithubFileSystem := Some {[ "/a.txt" := None; "/b.txt" := None ]};
     gitTree := [mkTreeItem "a.txt" "sha-a"; mkTreeItem "b.txt" "sha-b"];
     selectedRepoFullName := "owner/repo";
     selectedBranchName := "main" |}.

Definition sample_render : Render :=
  {| renderFileSystem := {[ "/a.txt" := None; "/b.txt" := None ]};
     renderGithub := sample_github |}.

Definition sample_app : AppState :=
  {| appStore := writes true [ {[ "/a.txt" := None; "/b.txt" := None ]} ]
                   (loadStateFromDB sample_a);
     appGithub := sample_github |}.

Definition sample_remote (sha : string) : option string :=
  if String.eqb sha "sha-a" then Some "remote a" else None.

Definition sample_local_render : Render :=
  {| renderFileSystem := sample_b;
     renderGithub :=
       {| initialGithubFileSystem := None; gitTree := [];
          selectedRepoFullName := ""; selectedBranchName := "" |} |}.

Definition sample_local_app : AppState :=
  {| appStore := loadStateFromDB sample_b;
     appGithub := renderGithub sample_local_render |}.

(** * Properties *)

(** ** JavaScript arrays *)

Section JsArrayFacts.
Context {A : Type}.

Lemma index_in_range (arr : list A) (i : Z) :
  0 <= i < Z.of_nat (length arr) -> is_Some (JsArray.index arr i).
Proof.
  intros [Hlo Hhi]. unfold JsArray.index.
  destruct (Z.ltb_spec i 0) as [?|_]; [lia|].
  apply lookup_lt_is_Some. lia.
Qed.

Lemma slice0_in_range (arr : list A) (e : Z) :
  0 <= e -> JsArray.slice0 arr e = take (Z.to_nat e) arr.
Proof.
  intros He. unfold JsArray.slice0.
  destruct (Z.ltb_spec e 0) as [?|_]; [lia|].
  destruct (Z.min_spec e (Z.of_nat (length arr))) as [[_ ->]|[Hge ->]]; [done|].
  rewrite Nat2Z.id.
  rewrite firstn_all. symmetry. apply take_ge. lia.
Qed.
End JsArrayFacts.

(** ** The primitives on small inputs *)

Example slice0_negative_end : JsArray.slice0 [1; 2; 3]%nat (-1) = [1; 2]%nat.
Proof. reflexivity. Qed.

Example slice0_past_the_end : JsArray.slice0 [1; 2; 3]%nat 7 = [1; 2; 3]%nat.
Proof. reflexivity. Qed.

Example index_before_start : JsArray.index [1; 2; 3]%nat (-1) = None.
Proof. reflexivity. Qed.

Example substring_to_last_slash :
  JsString.substring "/a/b/index.html" 0
    (JsString.lastIndexOf "/a/b/index.html" JsString.slash + 1) = "/a/b/".
Proof. reflexivity. Qed.

Example lastIndexOf_absent : JsString.lastIndexOf "index.html" JsString.slash = -1.
Proof. reflexivity. Qed.

Example replace_first_only : JsString.replace "//a//b" "//" "/" = "/a//b".
Proof. reflexivity. Qed.

Example trim_both_ends : JsString.trim "  /my project/ " = "/my project/".
Proof. reflexivity. Qed.

Example resolvePath_bare : resolvePath "/proj/index.html" "js/app.js" = Some "/proj/js/app.js".
Proof. reflexivity. Qed.

Example resolvePath_absolute : resolvePath "/proj/index.html" "/lib/x.css" = Some "/lib/x.css".
Proof. reflexivity. Qed.

Example resolvePath_above_root : resolvePath "/index.html" "../../x.css?v=1#top" = Some "/x.css".
Proof. reflexivity. Qed.

Example resolvePath_encodes : resolvePath "/proj/index.html" "my file.css" = Some "/proj/my%20file.css".
Proof. reflexivity. Qed.

Example cleanDestinationPath_root : map cleanDestinationPath ["/"; ""; "proj"; "/proj/"] = [""; ""; "/proj"; "/proj"].
Proof. reflexivity. Qed.

Example unpack_into_proj :
  newFileUpdates (cleanDestinationPath "/proj") import_example
  = {[ "/proj/a.txt" := Some "new"; "/proj/dir/b.txt" := Some "B" ]}.
Proof. vm_compute. reflexivity. Qed.

Example changedFiles_three_statuses :
  let changes :=
    changedFiles {[ "/new.txt" := Some "n"; "/same.txt" := Some "s";
                    "/edit.txt" := Some "after"; "/dir/.placeholder" := Some "" ]}
      (Some {[ "/same.txt" := Some "s"; "/edit.txt" := Some "before";
               "/gone.txt" := None ]}) in
  length changes = 3%nat
  /\ mkChange "/new.txt" added ∈ changes
  /\ mkChange "/edit.txt" modified ∈ changes
  /\ mkChange "/gone.txt" deleted ∈ changes.
Proof. vm_compute. repeat split; repeat constructor. Qed.

Example changedFiles_inherited_name :
  changedFiles {[ "constructor" := Some "x" ]} (Some ∅)
  = [mkChange "constructor" modified].
Proof. vm_compute. reflexivity. Qed.

Example set_proto_ignored :
  applyUpdates ∅ [("__proto__", "x"); ("/a.txt", "y")] = {[ "/a.txt" := Some "y" ]}.
Proof. vm_compute. reflexivity. Qed.

Example handleNewFile_inherited_name :
  handleNewFile ∅ "constructor" (loadStateFromDB ∅) = loadStateFromDB ∅
  /\ fileSystem (handleNewFile ∅ "/new.txt" (loadStateFromDB ∅))
     = Some {[ "/new.txt" := Some "" ]}.
Proof. split; vm_compute; reflexivity. Qed.

Example changedFiles_no_baseline : changedFiles sample_a None = [].
Proof. reflexivity. Qed.

(** ** History: general lemmas *)

Section History.
Implicit Types (st : StoreState) (fs : FileSystemState).

Lemma store_eta st :
  st = mkStore (fileSystem st) (fileSystemHistory st) (currentHistoryIndex st).
Proof. by destruct st. Qed.

Lemma index_last (h : list FileSystemState) fs :
  JsArray.index (h ++ [fs]) (Z.of_nat (length (h ++ [fs])) - 1) = Some fs.
Proof.
  unfold JsArray.index. rewrite length_app. simpl.
  destruct (Z.ltb_spec (Z.of_nat (length h + 1) - 1) 0) as [?|_]; [lia|].
  replace (Z.to_nat (Z.of_nat (length h + 1) - 1)) with (length h + 0)%nat by lia.
  by rewrite lookup_app_r, Nat.add_0_r, Nat.sub_diag by lia.
Qed.

Lemma setFileSystem_snapshot_synced fs st : synced (setFileSystem fs true st).
Proof. unfold synced, setFileSystem. simpl. by rewrite index_last. Qed.

Lemma setFileSystem_snapshot_at_last fs st : at_last (setFileSystem fs true st).
Proof.
  unfold at_last, setFileSystem. simpl. rewrite length_app. simpl. lia.
Qed.

Lemma loadStateFromDB_synced fs : synced (loadStateFromDB fs).
Proof. reflexivity. Qed.

Lemma loadStateFromDB_at_last fs : at_last (loadStateFromDB fs).
Proof. unfold at_last. simpl. lia. Qed.

(** The first snapshotted write on the store as created initialises the
    history like [loadStateFromDB] does. *)
Lemma setFileSystem_emptyStore fs :
  setFileSystem fs true emptyStore = loadStateFromDB fs.
Proof. reflexivity. Qed.

Lemma writes_snoc b tables fs st :
  writes b (tables ++ [fs]) st = setFileSystem fs b (writes b tables st).
Proof. unfold writes. by rewrite foldl_app. Qed.

(** Every state built from an initialised store by snapshotted writes has
    its cursor on the last snapshot, which is the live table. *)
Lemma snapshot_writes_invariant tables st :
  synced st -> at_last st ->
  synced (writes true tables st) /\ at_last (writes true tables st).
Proof.
  intros Hs Hl. induction tables as [|fs tables _] using rev_ind; [done|].
  rewrite writes_snoc. split.
  - apply setFileSystem_snapshot_synced.
  - apply setFileSystem_snapshot_at_last.
Qed.

Lemma undo_iter (n : nat) st :
  synced st -> Z.of_nat n <= currentHistoryIndex st ->
  Nat.iter n undo st
  = {| fileSystem := JsArray.index (fileSystemHistory st)
                       (currentHistoryIndex st - Z.of_nat n);
       fileSystemHistory := fileSystemHistory st;
       currentHistoryIndex := currentHistoryIndex st - Z.of_nat n |}.
Proof.
  intros Hs. induction n as [|n IH]; intros Hn.
  - simpl. rewrite Z.sub_0_r, <- Hs. apply store_eta.
  - simpl. rewrite IH by lia. unfold undo. simpl.
    destruct (Z.ltb_spec 0 (currentHistoryIndex st - Z.of_nat n)) as [_|?]; [|lia].
    by replace (currentHistoryIndex st - Z.of_nat n - 1)
      with (currentHistoryIndex st - Z.of_nat (S n)) by lia.
Qed.

Lemma redo_iter (n : nat) st :
  synced st ->
  currentHistoryIndex st + Z.of_nat n
    <= Z.of_nat (length (fileSystemHistory st)) - 1 ->
  Nat.iter n redo st
  = {| fileSystem := JsArray.index (fileSystemHistory st)
                       (currentHistoryIndex st + Z.of_nat n);
       fileSystemHistory := fileSystemHistory st;
       currentHistoryIndex := currentHistoryIndex st + Z.of_nat n |}.
Proof.
  intros Hs. induction n as [|n IH]; intros Hn.
  - simpl. rewrite Z.add_0_r, <- Hs. apply store_eta.
  - simpl. rewrite IH by lia. unfold redo. simpl.
    destruct (Z.ltb_spec (currentHistoryIndex st + Z.of_nat n)
                (Z.of_nat (length (fileSystemHistory st)) - 1)) as [_|?]; [|lia].
    by replace (currentHistoryIndex st + Z.of_nat n + 1)
      with (currentHistoryIndex st + Z.of_nat (S n)) by lia.
Qed.

Lemma undo_redo_iter (n : nat) st :
  synced st -> at_last st -> Z.of_nat n <= currentHistoryIndex st ->
  Nat.iter n redo (Nat.iter n undo st) = st.
Proof.
  intros Hs [Hlo Hlast] Hn.
  rewrite (undo_iter n st Hs Hn).
  rewrite redo_iter; simpl.
  - replace (currentHistoryIndex st - Z.of_nat n + Z.of_nat n)
      with (currentHistoryIndex st) by lia.
    rewrite <- Hs. symmetry. apply store_eta.
  - reflexivity.
  - lia.
Qed.

Lemma writes_unsnapshotted_frame tables st :
  fileSystemHistory (writes false tables st) = fileSystemHistory st
  /\ currentHistoryIndex (writes false tables st) = currentHistoryIndex st.
Proof.
  induction tables as [|fs tables IH] using rev_ind; [done|].
  rewrite writes_snoc. simpl. exact IH.
Qed.
End History.

(** ** History: the claims *)

(** C1. From an initialised history, after any sequence of writes that record
    a snapshot, [N] undos followed by [N] redos (with [N] at most the number
    of snapshots before the cursor) give back the store as it was, so the live
    table is the table before the first undo, namely the last table
    written. *)
Theorem undo_redo_restores_table
    (fs0 : FileSystemState) (tables : list FileSystemState) (N : nat) :
  let st := writes true tables (loadStateFromDB fs0) in
  Z.of_nat N <= currentHistoryIndex st ->
  fileSystem st = Some (default fs0 (last tables))
  /\ fileSystem (Nat.iter N redo (Nat.iter N undo st)) = fileSystem st
  /\ Nat.iter N redo (Nat.iter N undo st) = st.
Proof.
  intros st HN.
  destruct (snapshot_writes_invariant tables (loadStateFromDB fs0)
              (loadStateFromDB_synced fs0) (loadStateFromDB_at_last fs0))
    as [Hs Hl].
  fold st in Hs, Hl.
  assert (Hrt : Nat.iter N redo (Nat.iter N undo st) = st)
    by (by apply undo_redo_iter).
  split; [|split]; [|by rewrite Hrt|exact Hrt].
  subst st. clear. destruct tables as [|fs tables _] using rev_ind; [done|].
  rewrite writes_snoc, last_snoc. reflexivity.
Qed.

Lemma undo_redo_restores_table_witness :
  let st := writes true [sample_a; sample_b; sample_c] (loadStateFromDB ∅) in
  currentHistoryIndex st = 3
  /\ fileSystem (Nat.iter 2 redo (Nat.iter 2 undo st)) = Some sample_c.
Proof.
  split; [reflexivity|].
  destruct (undo_redo_restores_table ∅ [sample_a; sample_b; sample_c] 2)
    as (Hlive & Hsame & _).
  - simpl. lia.
  - rewrite Hsame. exact Hlive.
Defined.

(** C2. When the cursor is strictly before the last snapshot (the state after
    one or more undos), a write that records a snapshot keeps the snapshots
    up to and including the cursor, drops the later ones, appends the new
    table, moves the cursor to the new last index, and leaves nothing to
    redo. *)
Theorem write_after_undo_discards_redo (st : StoreState) (fs : FileSystemState) :
  0 <= currentHistoryIndex st < Z.of_nat (length (fileSystemHistory st)) - 1 ->
  let st' := setFileSystem fs true st in
  canRedo st = true
  /\ fileSystemHistory st'
     = take (Z.to_nat (currentHistoryIndex st) + 1) (fileSystemHistory st) ++ [fs]
  /\ currentHistoryIndex st' = Z.of_nat (length (fileSystemHistory st')) - 1
  /\ currentHistoryIndex st' = currentHistoryIndex st + 1
  /\ fileSystem st' = Some fs
  /\ canRedo st' = false.
Proof.
  intros [Hlo Hhi] st'. subst st'. unfold setFileSystem, canRedo. simpl.
  rewrite slice0_in_range by lia.
  replace (Z.to_nat (currentHistoryIndex st + 1))
    with (Z.to_nat (currentHistoryIndex st) + 1)%nat by lia.
  repeat split.
  - apply Z.ltb_lt. lia.
  - rewrite length_app, length_take. simpl. lia.
  - apply Z.ltb_ge. lia.
Qed.

Lemma write_after_undo_discards_redo_witness :
  let st := undo (undo (writes true [sample_a; sample_b; sample_c]
                          (loadStateFromDB ∅))) in
  let st' := setFileSystem sample_c true st in
  fileSystemHistory st = [∅; sample_a; sample_b; sample_c]
  /\ currentHistoryIndex st = 1
  /\ fileSystemHistory st' = [∅; sample_a; sample_c]
  /\ currentHistoryIndex st' = 2
  /\ canRedo st' = false.
Proof.
  intros st st'.
  destruct (write_after_undo_discards_redo st sample_c)
    as (_ & Hh & _ & Hc & _ & Hr).
  - subst st. simpl. lia.
  - fold st' in Hh, Hc, Hr.
    split; [reflexivity|]. split; [reflexivity|].
    split; [exact Hh|]. split; [exact Hc | exact Hr].
Defined.

(** C8. [undo] with the cursor on the first snapshot and [redo] with the
    cursor on the last snapshot return the store unchanged (live table,
    snapshots and cursor); both are total functions, so nothing is raised.
    [canUndo] holds exactly when the cursor is past the first snapshot and
    [canRedo] exactly when it is before the last. *)
Theorem undo_redo_boundaries (st : StoreState) :
  (currentHistoryIndex st = 0 -> undo st = st)
  /\ (currentHistoryIndex st = Z.of_nat (length (fileSystemHistory st)) - 1 ->
      redo st = st)
  /\ (canUndo st = true <-> 0 < currentHistoryIndex st)
  /\ (canRedo st = true <->
      currentHistoryIndex st < Z.of_nat (length (fileSystemHistory st)) - 1)
  /\ (canUndo st = false -> undo st = st)
  /\ (canRedo st = false -> redo st = st).
Proof.
  unfold undo, redo, canUndo, canRedo. repeat split.
  - intros ->. reflexivity.
  - intros ->. by rewrite Z.ltb_irrefl.
  - apply Z.ltb_lt.
  - apply Z.ltb_lt.
  - apply Z.ltb_lt.
  - apply Z.ltb_lt.
  - by intros ->.
  - by intros ->.
Qed.

Lemma undo_redo_boundaries_witness :
  undo (loadStateFromDB sample_a) = loadStateFromDB sample_a
  /\ redo (writes true [sample_b] (loadStateFromDB sample_a))
     = writes true [sample_b] (loadStateFromDB sample_a).
Proof.
  split.
  - apply (undo_redo_boundaries (loadStateFromDB sample_a)). reflexivity.
  - apply (undo_redo_boundaries (writes true [sample_b] (loadStateFromDB sample_a))).
    reflexivity.
Defined.

(** C9. In every state, a write that records no snapshot replaces the live
    table and leaves the snapshots and the cursor as they were, and so does
    any number of such writes: only the live table changes, to the table
    written last.  Consequently, with a snapshot before the cursor, one [undo]
    after them gives the same store as an [undo] without them: the live table
    becomes the snapshot before the cursor and every one of those writes is
    gone. *)
Theorem unsnapshotted_writes_frame
    (st : StoreState) (fs : FileSystemState) (tables : list FileSystemState) :
  (fileSystem (setFileSystem fs false st) = Some fs
   /\ fileSystemHistory (setFileSystem fs false st) = fileSystemHistory st
   /\ currentHistoryIndex (setFileSystem fs false st) = currentHistoryIndex st)
  /\ fileSystemHistory (writes false tables st) = fileSystemHistory st
  /\ currentHistoryIndex (writes false tables st) = currentHistoryIndex st
  /\ fileSystem (writes false tables st)
     = match last tables with
       | Some written => Some written
       | None => fileSystem st
       end
  /\ (0 < currentHistoryIndex st -> undo (writes false tables st) = undo st)
  /\ (0 < currentHistoryIndex st <= Z.of_nat (length (fileSystemHistory st)) ->
      exists previous,
        fileSystemHistory st !! (Z.to_nat (currentHistoryIndex st) - 1)%nat
          = Some previous
        /\ undo (writes false tables st)
           = {| fileSystem := Some previous;
                fileSystemHistory := fileSystemHistory st;
                currentHistoryIndex := currentHistoryIndex st - 1 |}).
Proof.
  destruct (writes_unsnapshotted_frame tables st) as [Hh Hc].
  assert (Hu : 0 < currentHistoryIndex st ->
             forall s, fileSystemHistory s = fileSystemHistory st ->
             currentHistoryIndex s = currentHistoryIndex st ->
             undo s = {| fileSystem := JsArray.index (fileSystemHistory st)
                                         (currentHistoryIndex st - 1);
                         fileSystemHistory := fileSystemHistory st;
                         currentHistoryIndex := currentHistoryIndex st - 1 |}).
  { intros Hlo s Hsh Hsc. unfold undo. rewrite Hsh, Hsc.
    by destruct (Z.ltb_spec 0 (currentHistoryIndex st)) as [_|?]; [|lia]. }
  split; [done|]. split; [exact Hh|]. split; [exact Hc|]. split; [|split].
  - destruct tables as [|written tables] using rev_ind; [done|].
    by rewrite writes_snoc, last_snoc.
  - intros Hlo. by rewrite (Hu Hlo _ Hh Hc), (Hu Hlo st).
  - intros [Hlo Hhi].
    destruct (index_in_range (fileSystemHistory st) (currentHistoryIndex st - 1))
      as [previous Hp]; [lia|].
    exists previous. split.
    + unfold JsArray.index in Hp.
      destruct (Z.ltb_spec (currentHistoryIndex st - 1) 0) as [?|_]; [lia|].
      by replace (Z.to_nat (currentHistoryIndex st) - 1)%nat
        with (Z.to_nat (currentHistoryIndex st - 1)) by lia.
    + by rewrite (Hu Hlo _ Hh Hc), Hp.
Qed.

Lemma unsnapshotted_writes_frame_witness :
  let st := writes true [sample_a] (loadStateFromDB ∅) in
  fileSystem (writes false [sample_b; sample_c] st) = Some sample_c
  /\ fileSystem (undo (writes false [sample_b; sample_c] st)) = Some ∅.
Proof.
  intros st.
  destruct (unsnapshotted_writes_frame st sample_a [sample_b; sample_c])
    as (_ & _ & _ & Hlive & _ & Hprev).
  split; [exact Hlive|].
  destruct Hprev as (previous & Hp & Hu).
  - subst st. simpl. lia.
  - rewrite Hu. simpl. subst st. simpl in Hp. congruence.
Defined.

(** ** The changed-files calculator *)

Section ChangedFiles.
Implicit Types (current baseline : FileSystemState) (c : FileChange).

Lemma statusOf_Some_dom baseline current p s :
  statusOf baseline current p = Some s -> p ∈ dom baseline ∪ dom current.
Proof.
  unfold statusOf, JsObject.get. intros H.
  rewrite elem_of_union, !elem_of_dom, <- !not_eq_None_Some.
  destruct (baseline !! p) as [b|] eqn:Hb; [by left|].
  destruct (current !! p) as [v|] eqn:Hv; [by right|].
  destruct (JsObject.inherited p);
    repeat (case_bool_decide; simpl in H); congruence.
Qed.

(** Membership in the stored list: the callback pushes the record and the
    final filter keeps it. *)
Lemma elem_of_changedFiles current baseline c :
  c ∈ changedFiles current (Some baseline)
  <-> statusOf baseline current (path c) = Some (status c)
      /\ isPlaceholderPath (path c) = false.
Proof.
  unfold changedFiles.
  rewrite list_elem_of_In, filter_In, <- list_elem_of_In, list_elem_of_omap.
  rewrite negb_true_iff. split.
  - intros [(p & _ & Hp) Hf]. split; [|exact Hf].
    destruct (statusOf baseline current p) as [s|] eqn:Hs; simpl in Hp; [|done].
    injection Hp as <-. exact Hs.
  - intros [Hs Hf]. split; [|exact Hf].
    exists (path c). split.
    + apply elem_of_elements. by eapply statusOf_Some_dom.
    + rewrite Hs. simpl. by destruct c.
Qed.

Lemma statusOf_self current p : statusOf current current p = None.
Proof.
  unfold statusOf, JsObject.get.
  destruct (current !! p), (JsObject.inherited p); simpl;
    repeat (case_bool_decide; simpl); congruence.
Qed.

(** On a path that both tables bind, the status compares the two entries. *)
Lemma statusOf_bound baseline current p (b c : option string) :
  baseline !! p = Some b -> current !! p = Some c ->
  statusOf baseline current p = if bool_decide (b = c) then None else Some modified.
Proof.
  intros Hb Hc. unfold statusOf, JsObject.get. rewrite Hb, Hc.
  repeat (case_bool_decide; simpl); congruence.
Qed.

Lemma omap_all_None {A B} (f : A -> option B) (l : list A) :
  (forall x, f x = None) -> omap f l = [].
Proof. intros Hf. induction l as [|x l IH]; simpl; [done|]. by rewrite Hf. Qed.
End ChangedFiles.

(** C3. The calculator compares the two entries of a path and has no rule
    for the unfetched marker: on a path that does not end in [/.placeholder],
    a marker in the live table against text in the baseline is reported as
    modified.  The handlers keep the two tables in step instead (a load binds
    the marker in both, a fetch writes the content into both), which [undo]
    and [redo] break, because a fetch records no snapshot while the baseline
    is not part of the history.  Here a repository with two files is loaded,
    [/a.txt] is fetched, and [undo] and [redo] are called: the live entry is
    the marker again, the baseline holds the text, and the file that nobody
    edited is reported as modified. *)
Theorem marker_against_text_after_undo_redo :
  (forall (current baseline : FileSystemState) (p text : string),
     current !! p = Some None -> baseline !! p = Some (Some text) ->
     isPlaceholderPath p = false ->
     mkChange p modified ∈ changedFiles current (Some baseline))
  /\ (let connected :=
        {| initialGithubFileSystem := None; gitTree := [];
           selectedRepoFullName := "owner/repo"; selectedBranchName := "main" |} in
      let loaded :=
        handleLoadRepo
          {| renderFileSystem := sample_a; renderGithub := connected |}
          (Some (gitTree sample_github)) sample_remote
          {| appStore := loadStateFromDB sample_a; appGithub := connected |} in
      let fetched :=
        handleFileSelect sample_render sample_remote "/a.txt" loaded in
      let after := redo (undo (appStore fetched)) in
      (fileSystem (appStore loaded) = Some (renderFileSystem sample_render)
       /\ appGithub loaded = renderGithub sample_render
       /\ changedFiles (renderFileSystem sample_render)
            (initialGithubFileSystem (appGithub loaded)) = [])
      /\ (fileSystem (appStore fetched)
          = Some {[ "/a.txt" := Some "remote a"; "/b.txt" := None ]}
          /\ initialGithubFileSystem (appGithub fetched)
             = Some {[ "/a.txt" := Some "remote a"; "/b.txt" := None ]})
      /\ fileSystem after = Some {[ "/a.txt" := None; "/b.txt" := None ]}
      /\ changedFiles {[ "/a.txt" := None; "/b.txt" := None ]}
           (initialGithubFileSystem (appGithub fetched))
         = [mkChange "/a.txt" modified]).
Proof.
  split.
  - intros current baseline p text Hc Hb Hmarker.
    apply elem_of_changedFiles. simpl. split; [|exact Hmarker].
    rewrite (statusOf_bound _ _ p (Some text) None) by assumption.
    by rewrite bool_decide_eq_false_2.
  - cbv zeta.
    split; [split; [|split] | split; [split | split]]; vm_compute; reflexivity.
Qed.

(** C4. The change records of a table against itself as baseline are empty,
    whatever the table holds (text, unfetched markers, marker file names). *)
Theorem changedFiles_self_empty (T : FileSystemState) :
  changedFiles T (Some T) = [].
Proof.
  unfold changedFiles. rewrite omap_all_None; [done|].
  intros p. by rewrite statusOf_self.
Qed.

(** ** The path resolver *)

Lemma startsWith_slash_cons (s : string) :
  JsString.startsWith ("/" +:+ s) "/" = true.
Proof. unfold JsString.startsWith. simpl. by destruct s. Qed.

(** Whatever path name the URL constructor gives, the last line of
    [resolvePath] returns a path with a leading slash. *)
Lemma resolvePathWith_rooted pathname base relative result :
  resolvePathWith pathname base relative = Some result ->
  JsString.startsWith result "/" = true.
Proof.
  unfold resolvePathWith.
  destruct (pathname relative _) as [p|]; [|done].
  intros [= <-].
  destruct (JsString.startsWith p "/") eqn:Hp; [exact Hp|].
  apply startsWith_slash_cons.
Qed.

(** C6. Against the base [/a/b/index.html] the reference [./c.css] resolves
    to [/a/b/c.css] and [../c.css] to [/a/c.css]; and every path the
    resolver returns, for any base and reference and any behaviour of the URL
    constructor, begins with a slash. *)
Theorem resolvePath_examples_and_root :
  resolvePath "/a/b/index.html" "./c.css" = Some "/a/b/c.css"
  /\ resolvePath "/a/b/index.html" "../c.css" = Some "/a/c.css"
  /\ (forall base relative result,
        resolvePath base relative = Some result ->
        JsString.startsWith result "/" = true)
  /\ (forall pathname base relative result,
        resolvePathWith pathname base relative = Some result ->
        JsString.startsWith result "/" = true).
Proof.
  split; [reflexivity|]. split; [reflexivity|]. split.
  - intros base relative result. apply resolvePathWith_rooted.
  - apply resolvePathWith_rooted.
Qed.

Lemma resolvePath_examples_and_root_witness :
  resolvePath "/proj/index.html" "s.css" = Some "/proj/s.css"
  /\ JsString.startsWith "/proj/s.css" "/" = true.
Proof.
  split; [reflexivity|].
  destruct resolvePath_examples_and_root as (_ & _ & Hroot & _).
  apply (Hroot "/proj/index.html" "s.css"). reflexivity.
Defined.

(** ** The preview resolver *)

(** The HTML branch is taken as soon as [index.html] under the root holds
    text. *)
Lemma updatePreview_html_branch pathname parseFromString markedParse
    (fs : FileSystemState) (root indexHtml : string) :
  root <> "" ->
  textAt fs (previewBasePath root +:+ "index.html") = Some indexHtml ->
  updatePreviewWith pathname parseFromString markedParse fs (Some root)
  = HtmlPreview
      <$> htmlSrcDocWith pathname parseFromString fs
            (previewBasePath root +:+ "index.html") indexHtml.
Proof.
  intros Hroot Hhtml. unfold updatePreviewWith.
  destruct (String.eqb_spec root "") as [?|_]; [done|].
  by rewrite Hhtml.
Qed.

(** C5. For the preview root [/proj] and the table of the example, with the
    HTML parser giving the document of the example text, the resolver takes
    the HTML branch and its output holds an inline [style] element with the
    text of [/proj/s.css], hence [color:red], and no [link] element. *)
Theorem preview_inlines_stylesheet
    (parseFromString : string -> Dom.Node) (markedParse : string -> string) :
  parseFromString example_html = example_document ->
  exists srcDoc,
    updatePreview parseFromString markedParse example_table (Some "/proj")
      = Some (HtmlPreview srcDoc)
    /\ srcDoc = "<!DOCTYPE html><html><head><style>body{color:red}</style></head><body>hi</body></html>"
    /\ JsString.includes srcDoc "<style>body{color:red}</style>" = true
    /\ JsString.includes srcDoc "color:red" = true
    /\ JsString.includes srcDoc "<link" = false.
Proof.
  intros Hparse. eexists. split.
  - unfold updatePreview.
    rewrite (updatePreview_html_branch _ _ _ _ "/proj" example_html);
      [|done|vm_compute; reflexivity].
    replace (previewBasePath "/proj" +:+ "index.html") with "/proj/index.html"
      by (vm_compute; reflexivity).
    unfold htmlSrcDocWith. rewrite Hparse.
    replace (inlineLinksWith URL.pathname example_table "/proj/index.html"
               example_document)
      with (Some (["body{color:red}"],
                  [Dom.Element "html" []
                     [Dom.Element "head" [] [];
                      Dom.Element "body" [] [Dom.Text "hi"]]]))
      by (vm_compute; reflexivity).
    vm_compute. reflexivity.
  - repeat split; vm_compute; reflexivity.
Qed.

Lemma preview_inlines_stylesheet_witness :
  exists srcDoc,
    updatePreview (fun _ => example_document) (fun md => md) example_table
      (Some "/proj") = Some (HtmlPreview srcDoc)
    /\ JsString.includes srcDoc "<link" = false.
Proof.
  destruct (preview_inlines_stylesheet (fun _ => example_document) (fun md => md))
    as (srcDoc & Hrun & _ & _ & _ & Hlink); [reflexivity|].
  exists srcDoc. split; [exact Hrun | exact Hlink].
Defined.

(** ** Strings: prefixes, suffixes and lengths *)

Section StringFacts.
Implicit Types (s t : string).

Lemma substring_whole (s : string) :
  String.substring 0 (String.length s) s = s.
Proof. induction s as [|a s IH]; simpl; [done|]. by rewrite IH. Qed.

Lemma substringFrom_1_cons (a : ascii) (s : string) :
  JsString.substringFrom (String a s) 1 = s.
Proof.
  unfold JsString.substringFrom, JsString.substring, JsString.clamp.
  cbn [String.length].
  replace (Z.to_nat (Z.max 0 (Z.min 1 (Z.of_nat (S (String.length s))))))
    with 1%nat by lia.
  replace (Z.to_nat (Z.max 0 (Z.min (Z.of_nat (S (String.length s)))
                                (Z.of_nat (S (String.length s))))))
    with (S (String.length s)) by lia.
  replace (Nat.min 1 (S (String.length s))) with 1%nat by lia.
  replace (Nat.max 1 (S (String.length s)) - 1)%nat
    with (String.length s) by lia.
  simpl. apply substring_whole.
Qed.

Lemma startsWith_slash_inv (p : string) :
  JsString.startsWith p "/" = true -> exists rest, p = String "/" rest.
Proof.
  unfold JsString.startsWith. destruct p as [|a rest]; [done|].
  change (String.prefix "/" (String a rest))
    with (match ascii_dec "/" a with
          | left _ => String.prefix "" rest
          | right _ => false
          end).
  destruct (ascii_dec "/" a) as [<-|_]; [|done]. by exists rest.
Qed.

(** On paths with a leading slash, dropping it is injective. *)
Lemma substringFrom_1_inj (p q : string) :
  JsString.startsWith p "/" = true -> JsString.startsWith q "/" = true ->
  JsString.substringFrom p 1 = JsString.substringFrom q 1 -> p = q.
Proof.
  intros [p' ->]%startsWith_slash_inv [q' ->]%startsWith_slash_inv.
  rewrite !substringFrom_1_cons. by intros ->.
Qed.

Lemma length_append s t :
  String.length (s +:+ t) = (String.length s + String.length t)%nat.
Proof. induction s as [|a s IH]; simpl; [done|]. by rewrite IH. Qed.

Lemma append_assoc s t u : (s +:+ t) +:+ u = s +:+ (t +:+ u).
Proof.
  induction s as [|a s IH]; [done|].
  change (String a ((s +:+ t) +:+ u) = String a (s +:+ (t +:+ u))).
  by f_equal.
Qed.

Lemma substring_skip s t m :
  String.substring (String.length s) m (s +:+ t) = String.substring 0 m t.
Proof. induction s as [|a s IH]; simpl; [done|]. exact IH. Qed.

Lemma substring_split s k :
  (k <= String.length s)%nat ->
  s = String.substring 0 k s +:+ String.substring k (String.length s - k) s.
Proof.
  revert k. induction s as [|a s IH]; intros k Hk.
  - simpl in Hk. by replace k with 0%nat by lia.
  - destruct k as [|k].
    + cbn. by rewrite substring_whole.
    + simpl in Hk.
      change (String a s
              = String a (String.substring 0 k s
                          +:+ String.substring k (String.length s - k) s)).
      f_equal. apply IH. lia.
Qed.

Lemma endsWith_app s t : JsString.endsWith (s +:+ t) t = true.
Proof.
  unfold JsString.endsWith. rewrite length_append.
  destruct (Nat.leb_spec (String.length t) (String.length s + String.length t))
    as [_|?]; [|lia].
  replace (String.length s + String.length t - String.length t)%nat
    with (String.length s) by lia.
  rewrite substring_skip, substring_whole. apply String.eqb_refl.
Qed.

Lemma endsWith_inv s t :
  JsString.endsWith s t = true -> exists q, s = q +:+ t.
Proof.
  unfold JsString.endsWith.
  destruct (Nat.leb_spec (String.length t) (String.length s)) as [Hle|_]; [|done].
  intros Heq%String.eqb_eq.
  exists (String.substring 0 (String.length s - String.length t) s).
  rewrite (substring_split s (String.length s - String.length t)) at 1 by lia.
  f_equal.
  by replace (String.length s - (String.length s - String.length t))%nat
    with (String.length t) by lia.
Qed.

Lemma startsWith_app_slash s t :
  JsString.startsWith s "/" = true -> JsString.startsWith (s +:+ t) "/" = true.
Proof.
  intros [rest ->]%startsWith_slash_inv. apply (startsWith_slash_cons (rest +:+ t)).
Qed.
Lemma length_substring_le s (k : nat) :
  (String.length (String.substring 0 k s) <= k)%nat.
Proof.
  revert k. induction s as [|a s IH]; intros [|k]; simpl; try lia.
  specialize (IH k). lia.
Qed.

Lemma lastIndexOf_from_bound s c (i found : Z) :
  found < i ->
  JsString.lastIndexOf_from i s c found < i + Z.of_nat (String.length s).
Proof.
  revert i found. induction s as [|a s IH]; intros i found Hfound; simpl.
  - lia.
  - destruct (Ascii.eqb a c).
    + specialize (IH (i + 1) i). lia.
    + specialize (IH (i + 1) found). lia.
Qed.

Lemma lastIndexOf_bound s c :
  JsString.lastIndexOf s c < Z.of_nat (String.length s).
Proof.
  unfold JsString.lastIndexOf.
  pose proof (lastIndexOf_from_bound s c 0 (-1)). lia.
Qed.

Lemma length_substring_from_0 s (k : Z) :
  (Z.of_nat (String.length (JsString.substring s 0 k)) <= Z.max 0 k).
Proof.
  unfold JsString.substring, JsString.clamp.
  replace (Z.to_nat (Z.max 0 (Z.min 0 (Z.of_nat (String.length s))))) with 0%nat by lia.
  rewrite Nat.min_0_l, Nat.max_0_l, Nat.sub_0_r.
  pose proof (length_substring_le s
                (Z.to_nat (Z.max 0 (Z.min k (Z.of_nat (String.length s)))))).
  lia.
Qed.
End StringFacts.

(** ** Folders of an archive *)

Section ZipFolders.
Implicit Types (z : Archive) (name k : string).

Lemma forceTrailingSlash_ends name :
  JsString.endsWith (JSZip.forceTrailingSlash name) "/" = true.
Proof.
  unfold JSZip.forceTrailingSlash.
  destruct (JsString.endsWith name "/") eqn:H; [exact H | apply endsWith_app].
Qed.

Lemma forceTrailingSlash_idem name :
  JSZip.forceTrailingSlash (JSZip.forceTrailingSlash name)
  = JSZip.forceTrailingSlash name.
Proof.
  unfold JSZip.forceTrailingSlash at 1. by rewrite forceTrailingSlash_ends.
Qed.

Lemma length_forceTrailingSlash name :
  (String.length (JSZip.forceTrailingSlash name) <= String.length name + 1)%nat.
Proof.
  unfold JSZip.forceTrailingSlash. destruct (JsString.endsWith name "/"); [lia|].
  rewrite length_append. simpl. lia.
Qed.

(** The parent of a path is shorter than the path, by two characters when
    the path closes with a slash. *)
Lemma length_parentFolder name :
  JSZip.parentFolder name <> "" ->
  (String.length (JSZip.parentFolder name)
   + (if JsString.endsWith name "/" then 2 else 1)
   <= String.length name)%nat.
Proof.
  unfold JSZip.parentFolder.
  set (path' := if JsString.endsWith name "/" then JsString.dropLast name else name).
  destruct (Z.ltb_spec 0 (JsString.lastIndexOf path' JsString.slash))
    as [Hpos|_]; [|done].
  intros _.
  pose proof (lastIndexOf_bound path' JsString.slash) as Hlast.
  pose proof (length_substring_from_0 path'
                (JsString.lastIndexOf path' JsString.slash)) as Hsub.
  assert (Hpath : (String.length path'
                   + (if JsString.endsWith name "/" then 1 else 0)
                   <= String.length name)%nat).
  { subst path'. destruct (JsString.endsWith name "/"); [|lia].
    unfold JsString.dropLast.
    pose proof (length_substring_le name (String.length name - 1)).
    destruct name; simpl in *; [lia|]. lia. }
  destruct (JsString.endsWith name "/"); lia.
Qed.

Lemma enough_parent fuel name :
  enough_fuel (S fuel) name ->
  JSZip.parentFolder (JSZip.forceTrailingSlash name) <> "" ->
  enough_fuel fuel (JSZip.parentFolder (JSZip.forceTrailingSlash name)).
Proof.
  unfold enough_fuel. intros Hfuel Hparent.
  pose proof (length_parentFolder _ Hparent) as Hlen.
  rewrite forceTrailingSlash_ends in Hlen.
  pose proof (length_forceTrailingSlash
                (JSZip.parentFolder (JSZip.forceTrailingSlash name))).
  lia.
Qed.

Lemma enough_zero name :
  enough_fuel 0 name -> JSZip.parentFolder (JSZip.forceTrailingSlash name) = "".
Proof.
  unfold enough_fuel. intros Hfuel.
  destruct (decide (JSZip.parentFolder (JSZip.forceTrailingSlash name) = ""))
    as [Heq|Hne]; [exact Heq|].
  pose proof (length_parentFolder _ Hne) as Hlen.
  rewrite forceTrailingSlash_ends in Hlen.
  destruct (JSZip.parentFolder (JSZip.forceTrailingSlash name)); [done|].
  simpl in Hlen. lia.
Qed.

(** With enough fuel, more fuel changes nothing: the bound never cuts the
    calls of [folderAdd] short. *)
Lemma folderAdd_fuel fuel fuel' name z :
  enough_fuel fuel name -> (fuel <= fuel')%nat ->
  JSZip.folderAdd fuel' name z = JSZip.folderAdd fuel name z.
Proof.
  revert fuel' name z.
  induction fuel as [|fuel IH]; intros fuel' name z Hfuel Hle.
  - apply enough_zero in Hfuel. destruct fuel' as [|fuel']; [done|].
    simpl. rewrite Hfuel. done.
  - destruct fuel' as [|fuel']; [lia|]. simpl.
    destruct (z !! JSZip.forceTrailingSlash name); [done|].
    destruct (String.eqb_spec (JSZip.parentFolder (JSZip.forceTrailingSlash name)) "")
      as [_|Hparent]; [done|].
    rewrite (IH fuel'); [done | by apply enough_parent | lia].
Qed.

Lemma enough_file name :
  JSZip.parentFolder name <> "" ->
  enough_fuel (String.length name) (JSZip.parentFolder name).
Proof.
  unfold enough_fuel. intros Hparent.
  pose proof (length_parentFolder _ Hparent) as Hlen.
  pose proof (length_forceTrailingSlash (JSZip.parentFolder name)).
  destruct (JsString.endsWith name "/"); lia.
Qed.

Lemma has_parents_empty : has_parents ∅.
Proof. intros k [e He]. by rewrite lookup_empty in He. Qed.

Lemma folders_head fuel name :
  JSZip.forceTrailingSlash name ∈ JSZip.folders fuel name.
Proof. destruct fuel; simpl; by left. Qed.

Lemma folders_ends fuel name k :
  k ∈ JSZip.folders fuel name -> JsString.endsWith k "/" = true.
Proof.
  revert name. induction fuel as [|fuel IH]; intros name; simpl.
  - intros ->%list_elem_of_singleton. apply forceTrailingSlash_ends.
  - intros [->|Hin]%elem_of_cons; [apply forceTrailingSlash_ends|].
    destruct (String.eqb _ ""); [by apply elem_of_nil in Hin|].
    by eapply IH.
Qed.

(** In an archive whose members have their parent folders, the folders
    above a folder that it holds are there as well. *)
Lemma has_parents_folders z fuel name k :
  has_parents z -> is_Some (z !! JSZip.forceTrailingSlash name) ->
  k ∈ JSZip.folders fuel name -> is_Some (z !! k).
Proof.
  intros Hclosed. revert name. induction fuel as [|fuel IH]; intros name Hname; simpl.
  - by intros ->%list_elem_of_singleton.
  - intros [->|Hin]%elem_of_cons; [exact Hname|].
    destruct (String.eqb_spec (JSZip.parentFolder (JSZip.forceTrailingSlash name)) "")
      as [_|Hparent]; [by apply elem_of_nil in Hin|].
    apply (IH (JSZip.parentFolder (JSZip.forceTrailingSlash name))); [|exact Hin].
    by apply Hclosed.
Qed.

Lemma folderAdd_keeps fuel name z k e :
  z !! k = Some e -> JSZip.folderAdd fuel name z !! k = Some e.
Proof.
  revert name z. induction fuel as [|fuel IH]; intros name z Hk; simpl.
  - destruct (z !! JSZip.forceTrailingSlash name) eqn:Hname; [exact Hk|].
    rewrite lookup_insert_ne; [exact Hk|]. intros <-. congruence.
  - destruct (z !! JSZip.forceTrailingSlash name) eqn:Hname; [exact Hk|].
    rewrite lookup_insert_ne by (intros <-; congruence).
    destruct (String.eqb _ ""); [exact Hk | by apply IH].
Qed.

(** What [folderAdd] makes of an archive whose members have their parent
    folders: the folders of the name that were missing are added, and nothing
    else changes. *)
Lemma folderAdd_lookup fuel name z k :
  has_parents z ->
  JSZip.folderAdd fuel name z !! k
  = match z !! k with
    | Some e => Some e
    | None =>
        if bool_decide (k ∈ JSZip.folders fuel name) then Some JSZip.folder
        else None
    end.
Proof.
  intros Hclosed. revert name.
  induction fuel as [|fuel IH]; intros name.
  - simpl. destruct (z !! JSZip.forceTrailingSlash name) as [e'|] eqn:Hname.
    + destruct (z !! k) as [e|] eqn:Hk; [done|].
      rewrite bool_decide_eq_false_2; [done|].
      intros ->%list_elem_of_singleton. congruence.
    + destruct (decide (k = JSZip.forceTrailingSlash name)) as [->|Hne].
      * rewrite lookup_insert_eq, Hname.
        by rewrite bool_decide_eq_true_2 by (by apply list_elem_of_singleton).
      * rewrite lookup_insert_ne by done.
        destruct (z !! k); [done|].
        by rewrite bool_decide_eq_false_2 by (by intros ?%list_elem_of_singleton).
  - simpl. destruct (z !! JSZip.forceTrailingSlash name) as [e'|] eqn:Hname.
    + destruct (z !! k) as [e|] eqn:Hk; [done|].
      rewrite bool_decide_eq_false_2; [done|]. intros Hin.
      apply (has_parents_folders z (S fuel) name k Hclosed) in Hin;
        [|by rewrite Hname].
      rewrite Hk in Hin. by destruct Hin.
    + destruct (decide (k = JSZip.forceTrailingSlash name)) as [->|Hne].
      * rewrite lookup_insert_eq, Hname.
        by rewrite bool_decide_eq_true_2 by (by left).
      * rewrite lookup_insert_ne by done.
        destruct (String.eqb (JSZip.parentFolder (JSZip.forceTrailingSlash name)) "").
        -- destruct (z !! k); [done|].
           by rewrite bool_decide_eq_false_2 by (by intros ?%list_elem_of_singleton).
        -- rewrite IH. destruct (z !! k); [done|].
           apply (f_equal (fun b : bool => if b then Some JSZip.folder else None)).
           apply bool_decide_ext. rewrite elem_of_cons.
           split; [by right | by intros [?|?]].
Qed.

Lemma folders_parent fuel name k :
  enough_fuel fuel name -> k ∈ JSZip.folders fuel name ->
  JSZip.parentFolder k <> "" ->
  JSZip.forceTrailingSlash (JSZip.parentFolder k) ∈ JSZip.folders fuel name.
Proof.
  revert name. induction fuel as [|fuel IH]; intros name Hfuel; simpl.
  - intros ->%list_elem_of_singleton Hparent. by apply enough_zero in Hfuel.
  - intros [->|Hin]%elem_of_cons Hparent.
    + right.
      destruct (String.eqb_spec (JSZip.parentFolder (JSZip.forceTrailingSlash name)) "")
        as [?|_]; [done|]. apply folders_head.
    + right.
      destruct (String.eqb_spec (JSZip.parentFolder (JSZip.forceTrailingSlash name)) "")
        as [?|Hne]; [by apply elem_of_nil in Hin|].
      apply IH; [by apply enough_parent | exact Hin | exact Hparent].
Qed.

Lemma folderAdd_has_parents fuel name z :
  enough_fuel fuel name -> has_parents z -> has_parents (JSZip.folderAdd fuel name z).
Proof.
  intros Hfuel Hclosed k. rewrite !folderAdd_lookup by exact Hclosed.
  intros Hk Hparent.
  destruct (z !! k) as [e|] eqn:Hzk.
  - destruct (Hclosed k) as [e' ->]; [by rewrite Hzk | exact Hparent | done].
  - case_bool_decide as Hin; [|by destruct Hk].
    destruct (z !! JSZip.forceTrailingSlash (JSZip.parentFolder k)); [done|].
    rewrite bool_decide_eq_true_2; [done|]. by apply folders_parent.
Qed.

Lemma file_lookup_eq name content z :
  JSZip.file name content z !! name = Some (JSZip.textFile content).
Proof. unfold JSZip.file. apply lookup_insert_eq. Qed.

Lemma file_keeps name content z k e :
  k <> name -> z !! k = Some e -> JSZip.file name content z !! k = Some e.
Proof.
  intros Hne Hk. unfold JSZip.file. rewrite lookup_insert_ne by done.
  destruct (String.eqb _ ""); [exact Hk | by apply folderAdd_keeps].
Qed.

(** What [zip.file] makes of an archive whose members have their parent
    folders. *)
Lemma file_lookup name content z k :
  has_parents z ->
  JSZip.file name content z !! k
  = if decide (k = name) then Some (JSZip.textFile content)
    else match z !! k with
         | Some e => Some e
         | None =>
             if bool_decide (k ∈ JSZip.parentFolders name) then Some JSZip.folder
             else None
         end.
Proof.
  intros Hclosed. unfold JSZip.file, JSZip.parentFolders.
  destruct (decide (k = name)) as [->|Hne]; [apply lookup_insert_eq|].
  rewrite lookup_insert_ne by done.
  destruct (String.eqb (JSZip.parentFolder name) "").
  - destruct (z !! k); [done|].
    by rewrite bool_decide_eq_false_2 by (by intros ?%elem_of_nil).
  - by apply folderAdd_lookup.
Qed.

Lemma file_has_parents name content z :
  has_parents z -> has_parents (JSZip.file name content z).
Proof.
  intros Hclosed k Hk Hparent.
  assert (Hfolders : has_parents
            (if String.eqb (JSZip.parentFolder name) "" then z
             else JSZip.folderAdd (String.length name) (JSZip.parentFolder name) z)).
  { destruct (String.eqb_spec (JSZip.parentFolder name) "") as [_|Hne];
      [exact Hclosed|].
    apply folderAdd_has_parents; [by apply enough_file | exact Hclosed]. }
  unfold JSZip.file in *.
  destruct (decide (k = name)) as [->|Hne].
  - destruct (String.eqb_spec (JSZip.parentFolder name) "") as [?|_]; [done|].
    destruct (decide (JSZip.forceTrailingSlash (JSZip.parentFolder name) = name))
      as [->|Hne']; [by rewrite lookup_insert_eq|].
    rewrite lookup_insert_ne by done.
    rewrite folderAdd_lookup by exact Hclosed.
    destruct (z !! _); [done|].
    by rewrite bool_decide_eq_true_2 by apply folders_head.
  - rewrite lookup_insert_ne in Hk by done.
    pose proof (Hfolders k Hk Hparent) as Hk'.
    destruct (decide (JSZip.forceTrailingSlash (JSZip.parentFolder k) = name))
      as [->|Hne']; [by rewrite lookup_insert_eq|].
    by rewrite lookup_insert_ne.
Qed.


Lemma parentFolders_ends name k :
  k ∈ JSZip.parentFolders name -> JsString.endsWith k "/" = true.
Proof.
  unfold JSZip.parentFolders.
  destruct (String.eqb _ ""); [by intros ?%elem_of_nil | apply folders_ends].
Qed.
End ZipFolders.

(** ** Archive export and import *)

Section Archive.
Implicit Types (fs : FileSystemState) (zip : Archive).

Lemma exportStep_cases fs zip p :
  exportStep fs zip p = zip
  \/ exists text,
       fs !! p = Some (Some text) /\ isPlaceholderPath p = false
       /\ exportStep fs zip p = JSZip.file (JsString.substringFrom p 1) text zip.
Proof.
  unfold exportStep. destruct (isPlaceholderPath p); [by left|].
  destruct (fs !! p) as [[text|]|]; [|by left..].
  right. by exists text.
Qed.

Lemma exportStep_has_parents fs zip p : has_parents zip -> has_parents (exportStep fs zip p).
Proof.
  intros Hclosed.
  destruct (exportStep_cases fs zip p) as [->|(text & _ & _ & ->)];
    [exact Hclosed | by apply file_has_parents].
Qed.

Lemma exportPaths_has_parents fs paths zip :
  has_parents zip -> has_parents (foldl (exportStep fs) zip paths).
Proof.
  revert zip. induction paths as [|p paths IH]; intros zip Hclosed; [exact Hclosed|].
  simpl. by apply IH, exportStep_has_parents.
Qed.

Lemma exportStep_provenance fs zip p :
  has_parents zip ->
  (forall name e, zip !! name = Some e -> exported fs name e) ->
  forall name e, exportStep fs zip p !! name = Some e -> exported fs name e.
Proof.
  intros Hclosed Hzip name e.
  destruct (exportStep_cases fs zip p) as [->|(text & Hp & Hmarker & ->)];
    [apply Hzip|].
  rewrite file_lookup by exact Hclosed.
  destruct (decide (name = JsString.substringFrom p 1)) as [->|Hne].
  - intros [= <-]. left. by exists p, text.
  - destruct (zip !! name) as [e'|] eqn:Hname; [intros [= <-]; by apply Hzip|].
    case_bool_decide as Hin; [|done].
    intros [= <-]. right. split; [done|]. by exists p, text.
Qed.

Lemma exportPaths_provenance fs paths zip :
  has_parents zip ->
  (forall name e, zip !! name = Some e -> exported fs name e) ->
  forall name e,
    foldl (exportStep fs) zip paths !! name = Some e -> exported fs name e.
Proof.
  revert zip. induction paths as [|p paths IH]; intros zip Hclosed Hzip;
    [exact Hzip|].
  simpl. apply IH; [by apply exportStep_has_parents | by apply exportStep_provenance].
Qed.

Lemma exportStep_keeps fs zip p name :
  is_Some (zip !! name) -> is_Some (exportStep fs zip p !! name).
Proof.
  intros [e He].
  destruct (exportStep_cases fs zip p) as [->|(text & _ & _ & ->)]; [by exists e|].
  destruct (decide (name = JsString.substringFrom p 1)) as [->|Hne].
  - rewrite file_lookup_eq. by eexists.
  - rewrite (file_keeps _ _ _ _ e) by done. by exists e.
Qed.

Lemma exportPaths_complete fs path text paths zip :
  fs !! path = Some (Some text) ->
  isPlaceholderPath path = false ->
  (forall q, q ∈ paths ->
     JsString.substringFrom q 1 = JsString.substringFrom path 1 -> q = path) ->
  path ∈ paths
  \/ zip !! JsString.substringFrom path 1 = Some (JSZip.textFile text) ->
  foldl (exportStep fs) zip paths !! JsString.substringFrom path 1
  = Some (JSZip.textFile text).
Proof.
  intros Hpath Hmarker. revert zip.
  induction paths as [|q paths IH]; intros zip Hinj Hstart.
  - destruct Hstart as [Hin|Hzip]; [by apply elem_of_nil in Hin | exact Hzip].
  - simpl. apply IH; [intros q' Hq'; apply Hinj; by right|].
    destruct (decide (q = path)) as [->|Hne].
    + right. unfold exportStep. rewrite Hmarker, Hpath. apply file_lookup_eq.
    + destruct Hstart as [Hin|Hzip].
      * left. apply elem_of_cons in Hin as [->|Hin]; [done | exact Hin].
      * right.
        destruct (exportStep_cases fs zip q) as [->|(content & _ & _ & ->)];
          [exact Hzip|].
        apply file_keeps; [|exact Hzip].
        intros Hname. apply Hne, Hinj; [by left | done].
Qed.

(** The folders above an exported file are members once the file has been
    added. *)
Lemma exportPaths_folders fs path text paths zip k :
  has_parents zip ->
  fs !! path = Some (Some text) ->
  isPlaceholderPath path = false ->
  k ∈ JSZip.parentFolders (JsString.substringFrom path 1) ->
  path ∈ paths \/ is_Some (zip !! k) ->
  is_Some (foldl (exportStep fs) zip paths !! k).
Proof.
  intros Hclosed Hpath Hmarker Hk. revert zip Hclosed.
  induction paths as [|q paths IH]; intros zip Hclosed Hstart.
  - destruct Hstart as [Hin|Hzip]; [by apply elem_of_nil in Hin | exact Hzip].
  - simpl. apply IH; [by apply exportStep_has_parents|].
    destruct Hstart as [Hin|Hzip]; [|right; by apply exportStep_keeps].
    apply elem_of_cons in Hin as [<-|Hin]; [|by left].
    right. unfold exportStep. rewrite Hmarker, Hpath.
    rewrite file_lookup by exact Hclosed.
    destruct (decide (k = JsString.substringFrom path 1)); [done|].
    destruct (zip !! k); [done|].
    by rewrite bool_decide_eq_true_2.
Qed.

(** The members of the exported archive, for a table whose paths begin with
    a slash and whatever the order in which its keys are enumerated. *)
Lemma exportPaths_lookup fs (paths : list string) name e :
  (forall p, p ∈ paths <-> is_Some (fs !! p)) ->
  (forall p, is_Some (fs !! p) -> JsString.startsWith p "/" = true) ->
  exportPaths fs paths !! name = Some e
  <-> exported_from fs name e
      \/ (e = JSZip.folder /\ folder_of_exported fs name
          /\ forall e', ~ exported_from fs name e').
Proof.
  intros Hkeys Hrooted. unfold exportPaths.
  assert (Hfile : forall n e', exported_from fs n e' ->
            foldl (exportStep fs) ∅ paths !! n = Some e').
  { intros n e' (p & text & Hp & Hmarker & -> & ->).
    apply exportPaths_complete; [exact Hp | exact Hmarker | |].
    - intros q Hq Hname.
      apply substringFrom_1_inj; [apply Hrooted, Hkeys, Hq | | exact Hname].
      apply Hrooted. by exists (Some text).
    - left. apply Hkeys. by exists (Some text). }
  assert (Hprov : forall n e', foldl (exportStep fs) ∅ paths !! n = Some e' ->
            exported fs n e').
  { apply exportPaths_provenance; [apply has_parents_empty|].
    intros n e' Hn. by rewrite lookup_empty in Hn. }
  split.
  - intros Hname. destruct (Hprov name e Hname) as [Hfrom|[-> Hfolder]];
      [by left|].
    right. split; [done|]. split; [exact Hfolder|].
    intros e' Hfrom. pose proof Hfrom as (p & text & _ & _ & _ & ->).
    apply Hfile in Hfrom. rewrite Hname in Hfrom. discriminate Hfrom.
  - intros [Hfrom|(-> & (p & text & Hp & Hmarker & Hin) & Hnofile)];
      [by apply Hfile|].
    destruct (exportPaths_folders fs p text paths ∅ name has_parents_empty Hp Hmarker Hin)
      as [e He]; [left; apply Hkeys; by exists (Some text)|].
    rewrite He. f_equal.
    destruct (Hprov name e He) as [Hfrom|[-> _]]; [|done].
    by apply Hnofile in Hfrom.
Qed.
Lemma unpackStep_provenance clean (entries : ArchiveEntries) updates member :
  member ∈ entries ->
  (forall p v, updates !! p = Some v -> unpacked_from clean entries p v) ->
  forall p v,
    unpackStep clean updates member !! p = Some v ->
    unpacked_from clean entries p v.
Proof.
  destruct member as [rel entry]. simpl. intros Hmember Hupd p v.
  destruct (JSZip.dir entry) eqn:Hdir; [apply Hupd|].
  destruct (JSZip.asyncString entry) as [text|] eqn:Htext; [|apply Hupd].
  rewrite lookup_insert. case_decide as Hp; [|apply Hupd].
  intros [= <-]. by exists rel, entry, text.
Qed.

Lemma unpackMembers_provenance clean (entries members : ArchiveEntries) updates :
  (forall member, member ∈ members -> member ∈ entries) ->
  (forall p v, updates !! p = Some v -> unpacked_from clean entries p v) ->
  forall p v,
    foldl (unpackStep clean) updates members !! p = Some v ->
    unpacked_from clean entries p v.
Proof.
  revert updates.
  induction members as [|member members IH]; intros updates Hmem Hupd;
    [exact Hupd|].
  simpl. apply IH; [intros m Hm; apply Hmem; by right|].
  apply unpackStep_provenance; [apply Hmem; by left | exact Hupd].
Qed.

Lemma unpackStep_keeps clean updates member p :
  is_Some (updates !! p) -> is_Some (unpackStep clean updates member !! p).
Proof.
  destruct member as [rel entry]. simpl. intros Hp.
  destruct (JSZip.dir entry); [exact Hp|].
  destruct (JSZip.asyncString entry); [|exact Hp].
  rewrite lookup_insert. by case_decide.
Qed.

Lemma unpackMembers_complete clean (members : ArchiveEntries) updates
    rel entry text :
  JSZip.dir entry = false -> JSZip.asyncString entry = Some text ->
  (rel, entry) ∈ members \/ is_Some (updates !! fullPath clean rel) ->
  is_Some (foldl (unpackStep clean) updates members !! fullPath clean rel).
Proof.
  intros Hdir Htext. revert updates.
  induction members as [|member members IH]; intros updates Hstart.
  - destruct Hstart as [Hin|Hupd]; [by apply elem_of_nil in Hin | exact Hupd].
  - simpl. apply IH. destruct Hstart as [Hin|Hupd].
    + apply elem_of_cons in Hin as [<-|Hin]; [|by left].
      right. simpl. rewrite Hdir, Htext. by rewrite lookup_insert_eq.
    + right. by apply unpackStep_keeps.
Qed.

Lemma newFileUpdates_provenance clean (entries : ArchiveEntries) p v :
  newFileUpdates clean entries !! p = Some v ->
  unpacked_from clean entries p v.
Proof.
  apply unpackMembers_provenance; [done|].
  intros q w Hq. by rewrite lookup_empty in Hq.
Qed.

Lemma newFileUpdates_complete clean (entries : ArchiveEntries) rel entry text :
  (rel, entry) ∈ entries ->
  JSZip.dir entry = false -> JSZip.asyncString entry = Some text ->
  is_Some (newFileUpdates clean entries !! fullPath clean rel).
Proof.
  intros Hrel Hdir Htext.
  apply (unpackMembers_complete clean _ _ rel entry text Hdir Htext).
  by left.
Qed.

(** The key list that [handleDownloadProject] goes through holds the keys of
    the table. *)
Lemma elem_of_keys fs (p : string) :
  p ∈ (map_to_list fs).*1 <-> is_Some (fs !! p).
Proof.
  rewrite list_elem_of_fmap. split.
  - intros ([q v] & -> & Hin). apply elem_of_map_to_list in Hin. by exists v.
  - intros [v Hv]. exists (p, v). split; [done|]. by apply elem_of_map_to_list.
Qed.

Lemma handleDownloadProject_provenance fs name entry :
  handleDownloadProject fs !! name = Some entry -> exported fs name entry.
Proof.
  unfold handleDownloadProject, exportPaths.
  apply exportPaths_provenance; [apply has_parents_empty|].
  intros n e Hn. by rewrite lookup_empty in Hn.
Qed.

Lemma handleDownloadProject_lookup fs name entry :
  (forall p, is_Some (fs !! p) -> JsString.startsWith p "/" = true) ->
  handleDownloadProject fs !! name = Some entry
  <-> exported_from fs name entry
      \/ (entry = JSZip.folder /\ folder_of_exported fs name
          /\ forall e', ~ exported_from fs name e').
Proof.
  intros Hrooted. unfold handleDownloadProject.
  apply exportPaths_lookup; [apply elem_of_keys | exact Hrooted].
Qed.
End Archive.

(** The folders that [zip.file] records for a nested member. *)
Example parentFolders_nested :
  JSZip.parentFolders "a/b/c.txt" = ["a/b/"; "a/"]
  /\ JSZip.parentFolders "a.txt" = []
  /\ JSZip.file "a/b/c.txt" "C" ∅
     = {[ "a/" := JSZip.folder; "a/b/" := JSZip.folder;
          "a/b/c.txt" := JSZip.textFile "C" ]}.
Proof. repeat split; vm_compute; reflexivity. Qed.

(** C7. Packing the table of the example gives the single member [a.txt]
    holding [hi], and unpacking the entries of that archive to the root
    gives exactly the entry [/a.txt] with [hi], which is then the whole live
    table when the table was empty.  In general, whatever the order in which
    the keys of the table are visited, every member of the exported archive
    is a file that comes from a table path that does not end in
    [/.placeholder], has text content, and gives the member its name by
    losing its first character, or it is a folder that the archive library
    records for a parent directory of such a file; and when the paths of the
    table begin with a slash, the file members are exactly the text entries
    whose path does not end in [/.placeholder], each under its path without
    the leading slash and with its content, and the folder members are
    exactly their parent directories. *)
Theorem export_then_import_example :
  handleDownloadProject export_example = {[ "a.txt" := JSZip.textFile "hi" ]}
  /\ (forall (entries : ArchiveEntries) st,
        entries ≡ₚ map_to_list (handleDownloadProject export_example) ->
        newFileUpdates (cleanDestinationPath "/") entries
        = {[ "/a.txt" := Some "hi" ]}
        /\ fileSystem (handleConfirmUnpack ∅ (Some (Some entries)) "/" st)
           = Some {[ "/a.txt" := Some "hi" ]})
  /\ (forall fs paths name entry,
        exportPaths fs paths !! name = Some entry ->
        exported_from fs name entry
        \/ (entry = JSZip.folder /\ folder_of_exported fs name))
  /\ (forall (fs : FileSystemState) (paths : list string),
        (forall p, p ∈ paths <-> is_Some (fs !! p)) ->
        (forall p, is_Some (fs !! p) -> JsString.startsWith p "/" = true) ->
        forall name entry,
          exportPaths fs paths !! name = Some entry
          <-> (exists text,
                 fs !! ("/" +:+ name) = Some (Some text)
                 /\ isPlaceholderPath ("/" +:+ name) = false
                 /\ entry = JSZip.textFile text)
              \/ (entry = JSZip.folder
                  /\ folder_of_exported fs name
                  /\ forall text,
                       fs !! ("/" +:+ name) = Some (Some text) ->
                       isPlaceholderPath ("/" +:+ name) = true)).
Proof.
  assert (Hexport : handleDownloadProject export_example
                    = {[ "a.txt" := JSZip.textFile "hi" ]})
    by (vm_compute; reflexivity).
  split; [exact Hexport|]. split; [|split].
  - intros entries st Hentries.
    rewrite Hexport, map_to_list_singleton in Hentries.
    apply Permutation_singleton_r in Hentries as ->.
    assert (Hunpack : newFileUpdates (cleanDestinationPath "/")
                        [("a.txt", JSZip.textFile "hi")]
                      = {[ "/a.txt" := Some "hi" ]}) by (vm_compute; reflexivity).
    split; [exact Hunpack|].
    unfold handleConfirmUnpack, setFileSystem. simpl.
    by rewrite Hunpack, (right_id_L ∅ (∪)).
  - intros fs paths. unfold exportPaths.
    apply exportPaths_provenance; [apply has_parents_empty|].
    intros n e Hn. by rewrite lookup_empty in Hn.
  - intros fs paths Hkeys Hrooted name entry.
    rewrite (exportPaths_lookup fs paths name entry Hkeys Hrooted).
    assert (Hfile : forall e, exported_from fs name e
              <-> exists text, fs !! ("/" +:+ name) = Some (Some text)
                               /\ isPlaceholderPath ("/" +:+ name) = false
                               /\ e = JSZip.textFile text).
    { intros e. split.
      - intros (p & text & Hp & Hmarker & -> & ->).
        destruct (startsWith_slash_inv p) as [rest ->];
          [apply Hrooted; by exists (Some text)|].
        rewrite substringFrom_1_cons. exists text.
        change ("/" +:+ rest) with (String "/" rest).
        split; [exact Hp|]. split; [exact Hmarker | reflexivity].
      - intros (text & Hp & Hmarker & ->). exists ("/" +:+ name), text.
        split; [exact Hp|]. split; [exact Hmarker|]. split; [|done].
        change ("/" +:+ name) with (String "/" name).
        by rewrite substringFrom_1_cons. }
    rewrite Hfile. apply or_iff_compat_l.
    apply and_iff_compat_l, and_iff_compat_l. split.
    + intros Hnone text Hp.
      destruct (isPlaceholderPath ("/" +:+ name)) eqn:Hmarker; [done|].
      exfalso. apply (Hnone (JSZip.textFile text)), Hfile.
      exists text. split; [exact Hp|]. split; reflexivity.
    + intros Hnone e (text & Hp & Hmarker & _)%Hfile.
      rewrite (Hnone text Hp) in Hmarker. discriminate Hmarker.
Qed.

Lemma export_then_import_example_witness :
  fileSystem (handleConfirmUnpack ∅ (Some (Some [("a.txt", JSZip.textFile "hi")]))
                "/" (loadStateFromDB ∅))
  = Some {[ "/a.txt" := Some "hi" ]}.
Proof.
  destruct export_then_import_example as (_ & Hroundtrip & _).
  apply (Hroundtrip [("a.txt", JSZip.textFile "hi")] (loadStateFromDB ∅)).
  vm_compute. reflexivity.
Defined.

(** C10. [handleConfirmUnpack] merges the unpacked entries into the table
    that the panel was rendered with when the handler was made, whatever the
    live table of the store holds by the time the archive has been read: in
    the table it writes, a path that the unpack wrote holds the unpacked text
    (no check, no refusal) and every other path has the entry of that
    rendered table.  So a write that lands in between is lost: here a
    terminal command rewrites [/keep.txt] while an archive with the single
    member [a.txt] is being unpacked; the unpack does not write [/keep.txt],
    and yet the live table holds its old text afterwards.  [handleNewFile]
    refuses the path, which is bound. *)
Theorem unpack_reverts_concurrent_write :
  (forall fileSystem0 (entries : ArchiveEntries) destinationPath state,
     let updates :=
       newFileUpdates (cleanDestinationPath destinationPath) entries in
     fileSystem (handleConfirmUnpack fileSystem0 (Some (Some entries))
                   destinationPath state)
     = Some (updates ∪ fileSystem0)
     /\ (forall p, updates !! p = None ->
           (updates ∪ fileSystem0) !! p = fileSystem0 !! p)
     /\ (forall p v, updates !! p = Some v ->
           (updates ∪ fileSystem0) !! p = Some v))
  /\ (let rendered : FileSystemState := {[ "/keep.txt" := Some "old" ]} in
      let entries : ArchiveEntries := [("a.txt", JSZip.textFile "A")] in
      let st :=
        handleTerminalSubmit rendered
          (Some (Some [mkAction Update "/keep.txt" (Some "edited")]))
          (loadStateFromDB rendered) in
      let st' := handleConfirmUnpack rendered (Some (Some entries)) "/" st in
      fileSystem st = Some {[ "/keep.txt" := Some "edited" ]}
      /\ newFileUpdates (cleanDestinationPath "/") entries !! "/keep.txt" = None
      /\ fileSystem st'
         = Some {[ "/a.txt" := Some "A"; "/keep.txt" := Some "old" ]}
      /\ handleNewFile rendered "/keep.txt" st = st).
Proof.
  split.
  - intros fileSystem0 entries destinationPath state updates.
    split; [reflexivity|]. split.
    + intros p Hp. by rewrite lookup_union_r.
    + intros p v Hp. by apply lookup_union_Some_l.
  - cbv zeta. split; [|split; [|split]]; vm_compute; reflexivity.
Qed.

(** * Further properties of the code *)

(** ** The undo/redo log under arbitrary use *)

Section HistoryRuns.
Implicit Types (st : StoreState) (fs : FileSystemState).

Lemma index_Some_in_range (h : list FileSystemState) (i : Z) :
  0 <= i < Z.of_nat (length h) ->
  JsArray.index h i = h !! Z.to_nat i /\ is_Some (h !! Z.to_nat i).
Proof.
  intros [Hlo Hhi]. unfold JsArray.index.
  destruct (Z.ltb_spec i 0) as [?|_]; [lia|].
  split; [done|]. apply lookup_lt_is_Some. lia.
Qed.

Lemma act_keeps_in_range st a :
  in_range st /\ is_Some (fileSystem st) ->
  in_range (act st a) /\ is_Some (fileSystem (act st a)).
Proof.
  unfold in_range. intros [[Hlo Hhi] Hlive].
  destruct a as [fs [|]| |]; simpl.
  - unfold setFileSystem. simpl. rewrite length_app. simpl. split; [lia|done].
  - split; [lia|done].
  - unfold undo.
    destruct (Z.ltb_spec 0 (currentHistoryIndex st)) as [Hpos|_]; [|done].
    simpl. split; [lia|].
    destruct (index_Some_in_range (fileSystemHistory st)
                (currentHistoryIndex st - 1)) as [-> Hsome]; [lia | exact Hsome].
  - unfold redo.
    destruct (Z.ltb_spec (currentHistoryIndex st)
                (Z.of_nat (length (fileSystemHistory st)) - 1)) as [Hlt|_]; [|done].
    simpl. split; [lia|].
    destruct (index_Some_in_range (fileSystemHistory st)
                (currentHistoryIndex st + 1)) as [-> Hsome]; [lia | exact Hsome].
Qed.

Lemma snapshot_write_history st fs :
  in_range st ->
  fileSystemHistory (setFileSystem fs true st)
  = take (Z.to_nat (currentHistoryIndex st) + 1) (fileSystemHistory st) ++ [fs]
  /\ currentHistoryIndex (setFileSystem fs true st) = currentHistoryIndex st + 1.
Proof.
  intros [Hlo Hhi]. unfold setFileSystem. simpl.
  rewrite slice0_in_range by lia.
  replace (Z.to_nat (currentHistoryIndex st + 1))
    with (Z.to_nat (currentHistoryIndex st) + 1)%nat by lia.
  split; [done|]. rewrite length_app, length_take. simpl. lia.
Qed.
Lemma redo_undo_after_unsnapshotted st (tables : list FileSystemState) :
  in_range st -> 0 < currentHistoryIndex st ->
  redo (undo (writes false tables st))
  = {| fileSystem := JsArray.index (fileSystemHistory st) (currentHistoryIndex st);
       fileSystemHistory := fileSystemHistory st;
       currentHistoryIndex := currentHistoryIndex st |}.
Proof.
  intros [Hlo Hhi] Hpos.
  destruct (writes_unsnapshotted_frame tables st) as [Hh Hc].
  unfold undo. rewrite Hh, Hc.
  destruct (Z.ltb_spec 0 (currentHistoryIndex st)) as [_|?]; [|lia].
  unfold redo. simpl.
  destruct (Z.ltb_spec (currentHistoryIndex st - 1)
              (Z.of_nat (length (fileSystemHistory st)) - 1)) as [_|?]; [|lia].
  by replace (currentHistoryIndex st - 1 + 1) with (currentHistoryIndex st) by lia.
Qed.
End HistoryRuns.

(** X1. Whatever calls follow [loadStateFromDB] (writes with or without a
    snapshot, undos, redos, in any order), the cursor stays inside the
    history, the history is never empty, and the live table is never
    [undefined]. *)
Theorem run_keeps_cursor_in_range
    (loadedFs : FileSystemState) (actions : list HistoryAction) :
  let st := run actions (loadStateFromDB loadedFs) in
  in_range st
  /\ (1 <= length (fileSystemHistory st))%nat
  /\ is_Some (fileSystem st).
Proof.
  intros st.
  assert (Hinv : in_range st /\ is_Some (fileSystem st)).
  { subst st. induction actions as [|a actions IH] using rev_ind.
    - simpl. unfold in_range. simpl. split; [lia|done].
    - unfold run. rewrite foldl_app. simpl. by apply act_keeps_in_range. }
  destruct Hinv as [Hrange Hlive]. split; [exact Hrange|]. split; [|exact Hlive].
  unfold in_range in Hrange. lia.
Qed.

(** X2. On a store whose live table is the snapshot under the cursor, a write
    that records a snapshot followed by [undo] shows the previous live table
    again, and a [redo] after that gives back the store as it was right after
    the write. *)
Theorem write_undo_redo (st : StoreState) (fs : FileSystemState) :
  in_range st -> synced st ->
  fileSystem (undo (setFileSystem fs true st)) = fileSystem st
  /\ currentHistoryIndex (undo (setFileSystem fs true st)) = currentHistoryIndex st
  /\ redo (undo (setFileSystem fs true st)) = setFileSystem fs true st.
Proof.
  intros Hrange Hsynced.
  destruct (snapshot_write_history st fs Hrange) as [Hh Hc].
  pose proof Hrange as [Hlo Hhi].
  assert (Hundo : undo (setFileSystem fs true st)
                  = {| fileSystem := fileSystem st;
                       fileSystemHistory := fileSystemHistory (setFileSystem fs true st);
                       currentHistoryIndex := currentHistoryIndex st |}).
  { unfold undo. rewrite Hc.
    destruct (Z.ltb_spec 0 (currentHistoryIndex st + 1)) as [_|?]; [|lia].
    replace (currentHistoryIndex st + 1 - 1) with (currentHistoryIndex st) by lia.
    assert (Hprev : JsArray.index (fileSystemHistory (setFileSystem fs true st))
                      (currentHistoryIndex st) = fileSystem st).
    { rewrite Hsynced, Hh. unfold JsArray.index.
      destruct (Z.ltb_spec (currentHistoryIndex st) 0) as [?|_]; [lia|].
      rewrite lookup_app_l by (rewrite length_take; lia).
      apply lookup_take_lt. lia. }
    by rewrite Hprev. }
  rewrite Hundo. split; [done|]. split; [done|].
  unfold redo.
  cbn [currentHistoryIndex fileSystemHistory fileSystem].
  assert (Hlen : Z.of_nat (length (fileSystemHistory (setFileSystem fs true st)))
                 = currentHistoryIndex st + 2).
  { rewrite Hh, length_app, length_take. simpl. lia. }
  rewrite Hlen.
  destruct (Z.ltb_spec (currentHistoryIndex st) (currentHistoryIndex st + 2 - 1))
    as [_|?]; [|lia].
  pose proof (setFileSystem_snapshot_synced fs st) as Hs. unfold synced in Hs.
  rewrite Hc in Hs. rewrite <- Hs, <- Hc. symmetry. apply store_eta.
Qed.

Lemma write_undo_redo_witness :
  let st := writes true [sample_a] (loadStateFromDB ∅) in
  fileSystem (undo (setFileSystem sample_b true st)) = Some sample_a
  /\ fileSystem (redo (undo (setFileSystem sample_b true st))) = Some sample_b.
Proof.
  intros st.
  destruct (write_undo_redo st sample_b) as (Hlive & _ & Hredo).
  - subst st. unfold in_range. simpl. lia.
  - reflexivity.
  - split; [exact Hlive | by rewrite Hredo].
Defined.

(** X3. Writes that record no snapshot do not survive an [undo] followed by a
    [redo]: with a snapshot before the cursor, the store after any number of
    such writes, one [undo] and one [redo] has the snapshot under the cursor
    as its live table, so it is the store from before those writes when that
    one showed its snapshot. *)
Theorem unsnapshotted_writes_lost_by_undo_redo
    (st : StoreState) (tables : list FileSystemState) :
  in_range st -> 0 < currentHistoryIndex st ->
  redo (undo (writes false tables st))
  = {| fileSystem := JsArray.index (fileSystemHistory st) (currentHistoryIndex st);
       fileSystemHistory := fileSystemHistory st;
       currentHistoryIndex := currentHistoryIndex st |}
  /\ (synced st -> redo (undo (writes false tables st)) = st).
Proof.
  intros Hrange Hpos.
  pose proof (redo_undo_after_unsnapshotted st tables Hrange Hpos) as Heq.
  split; [exact Heq|].
  intros Hs. rewrite Heq, <- Hs. symmetry. apply store_eta.
Qed.

Lemma unsnapshotted_writes_lost_by_undo_redo_witness :
  let st := writes true [sample_a] (loadStateFromDB ∅) in
  fileSystem (writes false [sample_b; sample_c] st) = Some sample_c
  /\ fileSystem (redo (undo (writes false [sample_b; sample_c] st))) = Some sample_a.
Proof.
  intros st. split; [reflexivity|].
  destruct (unsnapshotted_writes_lost_by_undo_redo st [sample_b; sample_c])
    as [_ Hback].
  - subst st. unfold in_range. simpl. lia.
  - subst st. simpl. lia.
  - by rewrite Hback.
Defined.

(** X4. Anywhere in the history, on a store whose live table is the snapshot
    under the cursor: when [canUndo] holds, [redo] undoes [undo], and when
    [canRedo] holds, [undo] undoes [redo]. *)
Theorem undo_redo_inverse (st : StoreState) :
  in_range st -> synced st ->
  (canUndo st = true -> redo (undo st) = st)
  /\ (canRedo st = true -> undo (redo st) = st).
Proof.
  intros [Hlo Hhi] Hs. unfold canUndo, canRedo. split.
  - intros Hu%Z.ltb_lt. unfold undo.
    destruct (Z.ltb_spec 0 (currentHistoryIndex st)) as [_|?]; [|lia].
    unfold redo. simpl.
    destruct (Z.ltb_spec (currentHistoryIndex st - 1)
                (Z.of_nat (length (fileSystemHistory st)) - 1)) as [_|?]; [|lia].
    replace (currentHistoryIndex st - 1 + 1) with (currentHistoryIndex st) by lia.
    rewrite <- Hs. symmetry. apply store_eta.
  - intros Hr%Z.ltb_lt. unfold redo.
    destruct (Z.ltb_spec (currentHistoryIndex st)
                (Z.of_nat (length (fileSystemHistory st)) - 1)) as [_|?]; [|lia].
    unfold undo. simpl.
    destruct (Z.ltb_spec 0 (currentHistoryIndex st + 1)) as [_|?]; [|lia].
    replace (currentHistoryIndex st + 1 - 1) with (currentHistoryIndex st) by lia.
    rewrite <- Hs. symmetry. apply store_eta.
Qed.

Lemma undo_redo_inverse_witness :
  let st := undo (writes true [sample_a; sample_b] (loadStateFromDB ∅)) in
  redo (undo st) = st /\ undo (redo st) = st.
Proof.
  intros st.
  destruct (undo_redo_inverse st) as [Hu Hr].
  - subst st. unfold in_range. simpl. lia.
  - reflexivity.
  - split; [apply Hu | apply Hr]; reflexivity.
Defined.

(** ** The changed-files calculator: symmetry and uniqueness *)

Section ChangedFilesMore.
Implicit Types (current baseline : FileSystemState).

Lemma changedFiles_paths_from baseline current (paths : list string) (p : string) :
  p ∈ path <$> List.filter (fun c => negb (isPlaceholderPath (path c)))
                 (omap (fun q => mkChange q <$> statusOf baseline current q) paths) ->
  p ∈ paths.
Proof.
  intros (c & -> & Hc)%list_elem_of_fmap.
  apply list_elem_of_In, filter_In in Hc as [Hc _].
  apply list_elem_of_In, list_elem_of_omap in Hc as (q & Hq & Hgq).
  destruct (statusOf baseline current q); simpl in Hgq; [|done].
  injection Hgq as <-. exact Hq.
Qed.

Lemma changedFiles_paths_NoDup_list baseline current (paths : list string) :
  NoDup paths ->
  NoDup (path <$> List.filter (fun c => negb (isPlaceholderPath (path c)))
                    (omap (fun q => mkChange q <$> statusOf baseline current q) paths)).
Proof.
  induction 1 as [|q paths Hq Hnd IH]; simpl; [constructor|].
  destruct (statusOf baseline current q) as [s|]; simpl; [|exact IH].
  destruct (isPlaceholderPath q); simpl; [exact IH|].
  constructor; [|exact IH].
  intros Hin. apply Hq. by eapply changedFiles_paths_from.
Qed.

Lemma statusOf_Some_iff baseline current p :
  is_Some (statusOf baseline current p) <-> baseline !! p <> current !! p.
Proof.
  rewrite <- not_eq_None_Some. unfold statusOf, JsObject.get.
  destruct (baseline !! p) as [b|], (current !! p) as [c|],
    (JsObject.inherited p); simpl;
    repeat (case_bool_decide; simpl); split; intros Hgoal; congruence.
Qed.
End ChangedFilesMore.

(** X5. The calculator is symmetric in its two tables up to the polarity of
    the status: a path is reported as added for a live table against a
    baseline exactly when it is reported as deleted with the two tables
    exchanged, and a path is reported as modified one way exactly when it is
    the other way. *)
Theorem changedFiles_polarity (A B : FileSystemState) (p : string) :
  (mkChange p added ∈ changedFiles A (Some B)
   <-> mkChange p deleted ∈ changedFiles B (Some A))
  /\ (mkChange p modified ∈ changedFiles A (Some B)
      <-> mkChange p modified ∈ changedFiles B (Some A)).
Proof.
  rewrite !elem_of_changedFiles. simpl. unfold statusOf, JsObject.get.
  destruct (A !! p) as [a|], (B !! p) as [b|], (JsObject.inherited p); simpl;
    repeat (case_bool_decide; simpl); split; split; intros [Hs Hm];
    (split; [congruence | exact Hm]).
Qed.

(** X6. A path has a change record exactly when it does not end in
    [/.placeholder] and its entries in the baseline and in the live table
    differ; no path has more than one record; without a baseline there is no
    record at all; and the status tells how they differ.  For a path that
    names no property of the object prototype: added when only the live
    table binds it, deleted when only the baseline does, modified when both
    do, to different entries (text or the unfetched marker).  A path that
    names such a property ([constructor], [toString], ...) and that one
    table only binds is reported as modified, never as added or deleted: the
    other table reads as the inherited value, not as [undefined]. *)
Theorem changedFiles_reports_differences
    (current baseline : FileSystemState) :
  (forall p,
     (exists s, mkChange p s ∈ changedFiles current (Some baseline))
     <-> isPlaceholderPath p = false /\ baseline !! p <> current !! p)
  /\ NoDup (path <$> changedFiles current (Some baseline))
  /\ changedFiles current None = []
  /\ (forall p,
        (mkChange p added ∈ changedFiles current (Some baseline)
         <-> isPlaceholderPath p = false
             /\ baseline !! p = None /\ is_Some (current !! p)
             /\ JsObject.inherited p = false)
        /\ (mkChange p deleted ∈ changedFiles current (Some baseline)
            <-> isPlaceholderPath p = false
                /\ is_Some (baseline !! p) /\ current !! p = None
                /\ JsObject.inherited p = false)
        /\ (mkChange p modified ∈ changedFiles current (Some baseline)
            <-> isPlaceholderPath p = false
                /\ baseline !! p <> current !! p
                /\ ((is_Some (baseline !! p) /\ is_Some (current !! p))
                    \/ JsObject.inherited p = true))).
Proof.
  split; [|split; [|split; [reflexivity|]]]; cycle 2.
  { intros p. rewrite !elem_of_changedFiles. simpl.
    unfold statusOf, JsObject.get.
    rewrite <- !not_eq_None_Some.
    destruct (baseline !! p) as [b|], (current !! p) as [c|],
      (JsObject.inherited p); simpl;
      repeat (case_bool_decide; simpl);
      repeat split; intros; destruct_and?; destruct_or?; destruct_and?;
      try congruence; try done; try (by left); try (by right). }
  - intros p. split.
    + intros [s Hs]. apply elem_of_changedFiles in Hs as [Hs Hm]. simpl in *.
      split; [exact Hm|]. apply statusOf_Some_iff. by exists s.
    + intros [Hm [s Hs]%statusOf_Some_iff]. exists s.
      apply elem_of_changedFiles. by split.
  - unfold changedFiles, allPaths.
    apply changedFiles_paths_NoDup_list, NoDup_elements.
Qed.

Lemma changedFiles_reports_differences_witness :
  exists s, mkChange "/a.txt" s ∈ changedFiles sample_c (Some sample_a).
Proof.
  destruct (changedFiles_reports_differences sample_c sample_a) as [Hiff _].
  apply Hiff. split; [reflexivity|]. vm_compute. discriminate.
Defined.

(** ** New folders *)

Lemma folderPlaceholder_is_marker (path : string) :
  isPlaceholderPath (folderPlaceholder path) = true.
Proof.
  unfold isPlaceholderPath, folderPlaceholder.
  destruct (JsString.endsWith path "/") eqn:Hslash.
  - apply endsWith_inv in Hslash as [q ->].
    rewrite append_assoc. apply endsWith_app.
  - apply endsWith_app.
Qed.

(** Binding a marker path changes no change record. *)
Lemma changedFiles_insert_marker
    (fs baseline : FileSystemState) (marker : string) (v : option string)
    (c : FileChange) :
  isPlaceholderPath marker = true ->
  c ∈ changedFiles (<[marker := v]> fs) (Some baseline)
  <-> c ∈ changedFiles fs (Some baseline).
Proof.
  intros Hmarker. rewrite !elem_of_changedFiles.
  destruct (decide (path c = marker)) as [Heq|Hne].
  - rewrite Heq, Hmarker. split; intros [_ ?]; done.
  - unfold statusOf, JsObject.get. by rewrite lookup_insert_ne.
Qed.

(** A marker path names no property of the object prototype, so it reads as
    [undefined] exactly when the table does not bind it. *)
Lemma marker_not_inherited (marker : string) :
  isPlaceholderPath marker = true -> JsObject.inherited marker = false.
Proof.
  intros Hmarker. unfold JsObject.inherited.
  apply bool_decide_eq_false_2. intros Hin.
  assert (Hnames : Forall (fun name => isPlaceholderPath name = false)
                     JsObject.prototypeNames)
    by (repeat constructor).
  rewrite Forall_forall in Hnames. apply Hnames in Hin. congruence.
Qed.

Lemma get_marker (fs : FileSystemState) (marker : string) :
  isPlaceholderPath marker = true ->
  JsObject.get fs marker <> JsObject.Undefined <-> is_Some (fs !! marker).
Proof.
  intros Hmarker. unfold JsObject.get.
  rewrite (marker_not_inherited marker Hmarker).
  destruct (fs !! marker) as [v|]; split; try done; by intros [? ?].
Qed.

(** Binding a marker path changes no member of the exported archive, when
    the paths begin with a slash. *)
Lemma handleDownloadProject_insert_marker
    (fs : FileSystemState) (marker : string) (v : option string) :
  (forall p, is_Some (fs !! p) -> JsString.startsWith p "/" = true) ->
  JsString.startsWith marker "/" = true ->
  isPlaceholderPath marker = true ->
  handleDownloadProject (<[marker := v]> fs) = handleDownloadProject fs.
Proof.
  intros Hrooted Hmarker_rooted Hmarker.
  assert (Hrooted' : forall p, is_Some (<[marker := v]> fs !! p) ->
                               JsString.startsWith p "/" = true).
  { intros p. rewrite lookup_insert. case_decide as Hp; [by subst|apply Hrooted]. }
  assert (Hentry : forall p text,
            <[marker := v]> fs !! p = Some (Some text)
            /\ isPlaceholderPath p = false
            <-> fs !! p = Some (Some text) /\ isPlaceholderPath p = false).
  { intros p text. destruct (decide (p = marker)) as [->|Hne].
    - rewrite Hmarker. split; intros [_ ?]; done.
    - by rewrite lookup_insert_ne. }
  assert (Hfile : forall name e,
            exported_from (<[marker := v]> fs) name e <-> exported_from fs name e).
  { intros name e. unfold exported_from.
    split; intros (p & text & Hp & Hm & Hrest); exists p, text.
    - destruct (proj1 (Hentry p text) (conj Hp Hm)) as [Hp' Hm']. by split.
    - destruct (proj2 (Hentry p text) (conj Hp Hm)) as [Hp' Hm']. by split. }
  assert (Hfolder : forall name,
            folder_of_exported (<[marker := v]> fs) name
            <-> folder_of_exported fs name).
  { intros name. unfold folder_of_exported.
    split; intros (p & text & Hp & Hm & Hrest); exists p, text.
    - destruct (proj1 (Hentry p text) (conj Hp Hm)) as [Hp' Hm']. by split.
    - destruct (proj2 (Hentry p text) (conj Hp Hm)) as [Hp' Hm']. by split. }
  apply map_eq. intros name. apply option_eq. intros entry.
  rewrite !handleDownloadProject_lookup by assumption.
  rewrite Hfile, Hfolder.
  apply or_iff_compat_l, and_iff_compat_l, and_iff_compat_l.
  split; intros Hnone e He; apply (Hnone e), Hfile, He.
Qed.

(** X7. [handleNewFolder] binds a path that ends in [/.placeholder]; a folder
    whose marker is already bound leaves the store as it is; otherwise the
    marker is bound to the empty text with a snapshot, every other entry is
    kept, no change record appears or disappears for any baseline, and (for
    paths that begin with a slash) the exported archive has the same members
    as before. *)
Theorem handleNewFolder_adds_only_a_marker
    (fileSystem0 : FileSystemState) (folder : string) (st : StoreState) :
  let marker := folderPlaceholder folder in
  isPlaceholderPath marker = true
  /\ (is_Some (fileSystem0 !! marker) ->
      handleNewFolder fileSystem0 folder st = st)
  /\ (fileSystem0 !! marker = None ->
      exists newFs,
        handleNewFolder fileSystem0 folder st = setFileSystem newFs true st
        /\ newFs !! marker = Some (Some "")
        /\ (forall p, p <> marker -> newFs !! p = fileSystem0 !! p)
        /\ (forall baseline c,
              c ∈ changedFiles newFs (Some baseline)
              <-> c ∈ changedFiles fileSystem0 (Some baseline))
        /\ ((forall p, is_Some (fileSystem0 !! p) ->
                       JsString.startsWith p "/" = true) ->
            JsString.startsWith marker "/" = true ->
            handleDownloadProject newFs = handleDownloadProject fileSystem0)).
Proof.
  intros marker. pose proof (folderPlaceholder_is_marker folder) as Hmarker.
  fold marker in Hmarker.
  split; [exact Hmarker|]. split.
  - intros Hbound. unfold handleNewFolder. fold marker. cbv zeta.
    by rewrite bool_decide_eq_true_2 by (by apply get_marker).
  - intros Hfree. exists (<[marker := Some ""]> fileSystem0).
    split.
    { unfold handleNewFolder. fold marker. cbv zeta.
      rewrite bool_decide_eq_false_2; [done|].
      rewrite (get_marker _ _ Hmarker), Hfree. by intros [? ?]. }
    split; [apply lookup_insert_eq|].
    split; [intros p Hp; by apply lookup_insert_ne|].
    split.
    + intros baseline c. by apply changedFiles_insert_marker.
    + intros Hrooted Hmr. by apply handleDownloadProject_insert_marker.
Qed.

Lemma handleNewFolder_adds_only_a_marker_witness :
  exists newFs,
    handleNewFolder sample_a "/docs" (loadStateFromDB sample_a)
    = setFileSystem newFs true (loadStateFromDB sample_a)
    /\ newFs !! "/docs/.placeholder" = Some (Some "")
    /\ handleDownloadProject newFs = handleDownloadProject sample_a.
Proof.
  destruct (handleNewFolder_adds_only_a_marker sample_a "/docs"
              (loadStateFromDB sample_a)) as (_ & _ & Hnew).
  destruct Hnew as (newFs & Hrun & Hm & _ & _ & Hexport); [reflexivity|].
  exists newFs. split; [exact Hrun|]. split; [exact Hm|].
  apply Hexport; [|reflexivity].
  intros p [v Hp]. unfold sample_a in Hp.
  apply lookup_singleton_Some in Hp as [<- _]. reflexivity.
Defined.

(** ** Selecting a file and applying proposed changes *)

Section ApplyChanges.
Implicit Types (store : Render) (app : AppState) (fs : FileSystemState).

(** A file that is not an unfetched entry of the rendered table, or any file
    when no repository is selected, is selected without touching the
    tables. *)
Lemma handleFileSelect_no_fetch store getFileContent p app :
  renderFileSystem store !! p <> Some None
  \/ selectedRepoFullName (renderGithub store) = "" ->
  handleFileSelect store getFileContent p app = app.
Proof.
  unfold handleFileSelect. intros [Hp|Hrepo].
  - by rewrite bool_decide_eq_false_2.
  - rewrite Hrepo. simpl. by rewrite andb_false_r.
Qed.

Lemma handleFileSelect_fetch store getFileContent p app item content :
  renderFileSystem store !! p = Some None ->
  selectedRepoFullName (renderGithub store) <> "" ->
  List.find (fun item => String.eqb ("/" +:+ treePath item) p)
    (gitTree (renderGithub store)) = Some item ->
  getFileContent (treeSha item) = Some content ->
  handleFileSelect store getFileContent p app
  = {| appStore :=
         setFileSystem (<[p := Some content]> (renderFileSystem store)) false
           (appStore app);
       appGithub :=
         {| initialGithubFileSystem :=
              Some (<[p := Some content]>
                      (default ∅ (initialGithubFileSystem (renderGithub store))));
            gitTree := gitTree (appGithub app);
            selectedRepoFullName := selectedRepoFullName (appGithub app);
            selectedBranchName := selectedBranchName (appGithub app) |} |}.
Proof.
  intros Hp Hrepo Hitem Hcontent. unfold handleFileSelect.
  rewrite bool_decide_eq_true_2 by exact Hp.
  destruct (String.eqb_spec (selectedRepoFullName (renderGithub store)) "")
    as [?|_]; [done|].
  cbn [negb andb]. by rewrite Hitem, Hcontent.
Qed.

Lemma set_lookup_ne {A} (key k : string) (value : A) (obj : gmap string A) :
  k <> key -> JsObject.set key value obj !! k = obj !! k.
Proof.
  intros Hne. unfold JsObject.set.
  destruct (obj !! key); [by rewrite lookup_insert_ne|].
  destruct (String.eqb key "__proto__"); [done | by rewrite lookup_insert_ne].
Qed.

Lemma set_lookup_eq {A} (key : string) (value : A) (obj : gmap string A) :
  key <> "__proto__" -> JsObject.set key value obj !! key = Some value.
Proof.
  intros Hne. unfold JsObject.set.
  destruct (obj !! key); [apply lookup_insert_eq|].
  destruct (String.eqb_spec key "__proto__") as [?|_]; [done|].
  apply lookup_insert_eq.
Qed.

(** On an object that does not bind [__proto__], an assignment to that key
    binds nothing. *)
Lemma set_proto {A} (value : A) (obj : gmap string A) :
  obj !! "__proto__" = None -> JsObject.set "__proto__" value obj = obj.
Proof. intros Hnone. unfold JsObject.set. by rewrite Hnone. Qed.

Lemma applyUpdates_lookup fs (updates : list (string * string)) (p : string) :
  p <> "__proto__" ->
  applyUpdates fs updates !! p
  = match last (filter (fun u => u.1 = p) updates) with
    | Some u => Some (Some u.2)
    | None => fs !! p
    end.
Proof.
  intros Hproto.
  induction updates as [|u updates IH] using rev_ind; [done|].
  unfold applyUpdates. rewrite foldl_app, filter_app. simpl.
  fold (applyUpdates fs updates).
  destruct (decide (u.1 = p)) as [Hu|Hu].
  - rewrite filter_cons_True by exact Hu. rewrite filter_nil, last_snoc.
    rewrite <- Hu. apply set_lookup_eq. by rewrite Hu.
  - rewrite filter_cons_False by exact Hu. rewrite filter_nil, app_nil_r.
    by rewrite set_lookup_ne.
Qed.

Lemma applyUpdates_proto fs (updates : list (string * string)) :
  fs !! "__proto__" = None -> applyUpdates fs updates !! "__proto__" = None.
Proof.
  intros Hnone.
  induction updates as [|u updates IH] using rev_ind; [exact Hnone|].
  unfold applyUpdates. rewrite foldl_app. simpl.
  fold (applyUpdates fs updates).
  destruct (decide (u.1 = "__proto__")) as [->|Hu].
  - by rewrite set_proto.
  - by rewrite set_lookup_ne.
Qed.
End ApplyChanges.

(** X8. Applying a non-empty list of proposed changes whose first file is
    not an unfetched entry (or with no repository selected) writes, with a
    snapshot, the rendered table in which every proposed path holds the
    content of the last change proposed for it and every other path keeps its
    entry; the repository part is left alone; and with no pending changes the
    handler does nothing.  The path [__proto__] is the exception: on a table
    that does not bind it, a change proposed for it is not stored (the
    assignment runs the setter of the object prototype). *)
Theorem apply_changes_last_wins
    (store : Render) (getFileContent : string -> option string)
    (first : string * string) (rest : list (string * string)) (app : AppState) :
  renderFileSystem store !! first.1 <> Some None
  \/ selectedRepoFullName (renderGithub store) = "" ->
  let changes := first :: rest in
  let app' := handleConfirmApplyChanges store getFileContent (Some changes)
                ApplyAll app in
  appGithub app' = appGithub app
  /\ appStore app'
     = setFileSystem (applyUpdates (renderFileSystem store) changes) true
         (appStore app)
  /\ (forall p,
        p <> "__proto__" ->
        applyUpdates (renderFileSystem store) changes !! p
        = match last (filter (fun u => u.1 = p) changes) with
          | Some u => Some (Some u.2)
          | None => renderFileSystem store !! p
          end)
  /\ (renderFileSystem store !! "__proto__" = None ->
      applyUpdates (renderFileSystem store) changes !! "__proto__" = None)
  /\ handleConfirmApplyChanges store getFileContent None ApplyAll app = app.
Proof.
  intros Hno changes app'. subst app' changes.
  unfold handleConfirmApplyChanges.
  rewrite handleFileSelect_no_fetch by exact Hno.
  split; [reflexivity|]. split; [reflexivity|]. split; [|split; [|reflexivity]].
  - intros p. apply applyUpdates_lookup.
  - apply applyUpdates_proto.
Qed.

Lemma apply_changes_last_wins_witness :
  fileSystem (appStore
    (handleConfirmApplyChanges sample_local_render sample_remote
       (Some [("/a.txt", "one"); ("/c.txt", "new"); ("/a.txt", "two")])
       ApplyAll sample_local_app))
  = Some {[ "/a.txt" := Some "two"; "/b.txt" := Some ""; "/c.txt" := Some "new" ]}.
Proof.
  destruct (apply_changes_last_wins sample_local_render sample_remote
              ("/a.txt", "one") [("/c.txt", "new"); ("/a.txt", "two")]
              sample_local_app) as (_ & Hstore & _).
  - right. reflexivity.
  - rewrite Hstore. vm_compute. reflexivity.
Defined.

(** X9. When the first proposed file is an unfetched entry of the rendered
    table, a repository is selected and the fetch succeeds, the selection
    that follows the write replaces the live table by the rendered table with
    the fetched content: none of the proposed contents is in the live table
    afterwards (every other path shows its rendered entry), while the
    snapshot taken by the write, the last of the history, holds them: in it
    every proposed path other than [__proto__] has the content of the last
    change proposed for it. *)
Theorem apply_changes_to_unfetched_file
    (store : Render) (getFileContent : string -> option string)
    (first : string * string) (rest : list (string * string)) (app : AppState)
    (item : TreeItem) (content : string) :
  renderFileSystem store !! first.1 = Some None ->
  selectedRepoFullName (renderGithub store) <> "" ->
  List.find (fun item => String.eqb ("/" +:+ treePath item) first.1)
    (gitTree (renderGithub store)) = Some item ->
  getFileContent (treeSha item) = Some content ->
  let app' := handleConfirmApplyChanges store getFileContent
                (Some (first :: rest)) ApplyAll app in
  fileSystem (appStore app')
  = Some (<[first.1 := Some content]> (renderFileSystem store))
  /\ (forall live p, fileSystem (appStore app') = Some live ->
        (p = first.1 -> live !! p = Some (Some content))
        /\ (p <> first.1 -> live !! p = renderFileSystem store !! p))
  /\ (exists snapshot,
        last (fileSystemHistory (appStore app')) = Some snapshot
        /\ snapshot = applyUpdates (renderFileSystem store) (first :: rest)
        /\ forall p u,
             p <> "__proto__" ->
             last (filter (fun u => u.1 = p) (first :: rest)) = Some u ->
             snapshot !! p = Some (Some u.2))
  /\ initialGithubFileSystem (appGithub app')
     = Some (<[first.1 := Some content]>
               (default ∅ (initialGithubFileSystem (renderGithub store)))).
Proof.
  intros Hp Hrepo Hitem Hcontent app'. subst app'.
  unfold handleConfirmApplyChanges.
  rewrite (handleFileSelect_fetch store getFileContent first.1 _ item content)
    by assumption.
  cbn [appStore appGithub initialGithubFileSystem].
  split; [reflexivity|]. split; [|split; [|reflexivity]].
  - intros live p [= <-]. split.
    + intros ->. apply lookup_insert_eq.
    + intros Hne. by apply lookup_insert_ne.
  - exists (applyUpdates (renderFileSystem store) (first :: rest)).
    split; [cbn; apply last_snoc|]. split; [reflexivity|].
    intros p u Hproto Hlast. by rewrite applyUpdates_lookup, Hlast.
Qed.

Lemma apply_changes_to_unfetched_file_witness :
  let app' :=
    handleConfirmApplyChanges sample_render sample_remote
      (Some [("/a.txt", "proposed a"); ("/b.txt", "proposed b")])
      ApplyAll sample_app in
  fileSystem (appStore app')
  = Some {[ "/a.txt" := Some "remote a"; "/b.txt" := None ]}.
Proof.
  intros app'.
  destruct (apply_changes_to_unfetched_file sample_render sample_remote
              ("/a.txt", "proposed a") [("/b.txt", "proposed b")] sample_app
              (mkTreeItem "a.txt" "sha-a") "remote a")
    as (Hlive & _); [reflexivity | discriminate | reflexivity | reflexivity |].
  fold app' in Hlive. rewrite Hlive. vm_compute. reflexivity.
Defined.

(** ** Loading a repository and fetching its files *)

Section Repository.
Implicit Types (store : Render) (app : AppState) (fs : FileSystemState).

Lemma placeholderTable_lookup (items : list TreeItem) (p : string) :
  placeholderTable items !! p
  = if bool_decide (p ∈ (fun item => "/" +:+ treePath item) <$> items)
    then Some None else None.
Proof.
  induction items as [|item items IH] using rev_ind; [done|].
  unfold placeholderTable. rewrite foldl_app, fmap_app. simpl.
  fold (placeholderTable items).
  destruct (decide (p = "/" +:+ treePath item)) as [->|Hne].
  - rewrite lookup_insert_eq. rewrite bool_decide_eq_true_2; [done|].
    apply elem_of_app. right. by apply list_elem_of_singleton.
  - rewrite lookup_insert_ne by done. rewrite IH.
    apply (f_equal (fun b : bool => if b then Some None else None)).
    apply bool_decide_ext. rewrite elem_of_app, list_elem_of_singleton. tauto.
Qed.

Lemma placeholderTable_no_text (items : list TreeItem) (p text : string) :
  placeholderTable items !! p <> Some (Some text).
Proof. rewrite placeholderTable_lookup. by case_bool_decide. Qed.

Lemma placeholderTable_rooted (items : list TreeItem) (p : string) :
  is_Some (placeholderTable items !! p) -> JsString.startsWith p "/" = true.
Proof.
  rewrite placeholderTable_lookup. case_bool_decide as Hin; [|by intros [? ?]].
  intros _. apply list_elem_of_fmap in Hin as (item & -> & _).
  apply startsWith_slash_cons.
Qed.

(** A table without text exports no member. *)
Lemma handleDownloadProject_no_text fs :
  (forall p text, fs !! p <> Some (Some text)) -> handleDownloadProject fs = ∅.
Proof.
  intros Hnone. apply map_eq. intros name. rewrite lookup_empty.
  apply eq_None_not_Some. intros [entry Hentry].
  apply handleDownloadProject_provenance in Hentry
    as [(p & text & Hp & _)|(_ & p & text & Hp & _)];
    by apply (Hnone p text).
Qed.

Lemma changedFiles_same fs : changedFiles fs (Some fs) = [].
Proof.
  unfold changedFiles. rewrite omap_all_None; [done|].
  intros p. by rewrite statusOf_self.
Qed.

Lemma changedFiles_insert_both fs baseline (p : string) (v : option string)
    (c : FileChange) :
  fs !! p = baseline !! p ->
  c ∈ changedFiles (<[p := v]> fs) (Some (<[p := v]> baseline))
  <-> c ∈ changedFiles fs (Some baseline).
Proof.
  intros Hsame. rewrite !elem_of_changedFiles.
  assert (Hstatus : statusOf (<[p := v]> baseline) (<[p := v]> fs) (path c)
                    = statusOf baseline fs (path c)).
  { unfold statusOf, JsObject.get. destruct (decide (path c = p)) as [->|Hne].
    - rewrite !lookup_insert_eq, Hsame.
      destruct (baseline !! p), (JsObject.inherited p); simpl;
        repeat (case_bool_decide; simpl); congruence.
    - by rewrite !lookup_insert_ne. }
  by rewrite Hstatus.
Qed.
End Repository.

(** X10. Fetching a file that is an unfetched entry in the rendered table and
    in the rendered baseline writes the content into both (the live table
    without a snapshot: history and cursor stay), and the change records are
    those of the rendered tables: the fetch adds none and removes none.  When
    the request fails the tables are left alone. *)
Theorem fetch_keeps_change_records
    (store : Render) (getFileContent : string -> option string) (p : string)
    (app : AppState) (item : TreeItem) (content : string)
    (baseline : FileSystemState) :
  renderFileSystem store !! p = Some None ->
  initialGithubFileSystem (renderGithub store) = Some baseline ->
  baseline !! p = Some None ->
  selectedRepoFullName (renderGithub store) <> "" ->
  List.find (fun item => String.eqb ("/" +:+ treePath item) p)
    (gitTree (renderGithub store)) = Some item ->
  getFileContent (treeSha item) = Some content ->
  let app' := handleFileSelect store getFileContent p app in
  let newFs := <[p := Some content]> (renderFileSystem store) in
  let newInitialFs := <[p := Some content]> baseline in
  fileSystem (appStore app') = Some newFs
  /\ fileSystemHistory (appStore app') = fileSystemHistory (appStore app)
  /\ currentHistoryIndex (appStore app') = currentHistoryIndex (appStore app)
  /\ initialGithubFileSystem (appGithub app') = Some newInitialFs
  /\ (forall c, c ∈ changedFiles newFs (Some newInitialFs)
                <-> c ∈ changedFiles (renderFileSystem store) (Some baseline))
  /\ (forall failing,
        failing (treeSha item) = None ->
        handleFileSelect store failing p app = app).
Proof.
  intros Hp Hbase Hbp Hrepo Hitem Hcontent app' newFs newInitialFs.
  subst app'.
  rewrite (handleFileSelect_fetch store getFileContent p app item content)
    by assumption.
  rewrite Hbase. cbn [appStore appGithub initialGithubFileSystem default].
  split; [reflexivity|]. split; [reflexivity|]. split; [reflexivity|].
  split; [reflexivity|]. split.
  - intros c. apply changedFiles_insert_both. by rewrite Hp, Hbp.
  - intros failing Hfail. unfold handleFileSelect.
    rewrite bool_decide_eq_true_2 by exact Hp.
    destruct (String.eqb_spec (selectedRepoFullName (renderGithub store)) "")
      as [?|_]; [done|].
    cbn [negb andb]. by rewrite Hitem, Hfail.
Qed.

Lemma fetch_keeps_change_records_witness :
  let app' := handleFileSelect sample_render sample_remote "/a.txt" sample_app in
  fileSystem (appStore app')
  = Some {[ "/a.txt" := Some "remote a"; "/b.txt" := None ]}
  /\ changedFiles {[ "/a.txt" := Some "remote a"; "/b.txt" := None ]}
       (initialGithubFileSystem (appGithub app')) = [].
Proof.
  intros app'.
  destruct (fetch_keeps_change_records sample_render sample_remote "/a.txt"
              sample_app (mkTreeItem "a.txt" "sha-a") "remote a"
              {[ "/a.txt" := None; "/b.txt" := None ]})
    as (Hlive & _ & _ & Hbase & _);
    [reflexivity | reflexivity | reflexivity | discriminate
    | reflexivity | reflexivity |].
  fold app' in Hlive, Hbase. rewrite Hlive, Hbase. split; vm_compute; reflexivity.
Defined.

(** X11. [handleLoadRepo] does nothing without a selected repository and
    branch.  Otherwise it first empties the live table and the baseline, and
    they stay empty, with the history and the cursor untouched, when the tree
    cannot be fetched.  With a tree, and a rendered table without unfetched
    entries (so that the file opened at the end is not fetched), the table of
    the tree becomes the live table, with a snapshot, and the baseline: its
    entries are exactly the paths of the tree under [/], all unfetched, there
    is no change record, and an export of it has no member. *)
Theorem handleLoadRepo_placeholders
    (store : Render) (items : list TreeItem)
    (getFileContent : string -> option string) (app : AppState) :
  let cleared :=
    {| fileSystem := Some ∅;
       fileSystemHistory := fileSystemHistory (appStore app);
       currentHistoryIndex := currentHistoryIndex (appStore app) |} in
  let table := placeholderTable items in
  (selectedRepoFullName (renderGithub store) = ""
   \/ selectedBranchName (renderGithub store) = "" ->
   forall tree, handleLoadRepo store tree getFileContent app = app)
  /\ (selectedRepoFullName (renderGithub store) <> "" ->
      selectedBranchName (renderGithub store) <> "" ->
      (appStore (handleLoadRepo store None getFileContent app) = cleared
       /\ initialGithubFileSystem
            (appGithub (handleLoadRepo store None getFileContent app)) = Some ∅)
      /\ ((forall p, renderFileSystem store !! p <> Some None) ->
          let app' := handleLoadRepo store (Some items) getFileContent app in
          appStore app' = setFileSystem table true cleared
          /\ initialGithubFileSystem (appGithub app') = Some table
          /\ gitTree (appGithub app') = items))
  /\ (forall p, table !! p
                = if bool_decide (p ∈ (fun item => "/" +:+ treePath item) <$> items)
                  then Some None else None)
  /\ (forall p, is_Some (table !! p) -> JsString.startsWith p "/" = true)
  /\ changedFiles table (Some table) = []
  /\ handleDownloadProject table = ∅.
Proof.
  intros cleared table. split; [|split; [|split; [|split; [|split]]]].
  - intros Hguard tree. unfold handleLoadRepo.
    destruct Hguard as [-> | ->]; simpl; [done|]. by rewrite orb_true_r.
  - intros Hrepo Hbranch. unfold handleLoadRepo.
    destruct (String.eqb_spec (selectedRepoFullName (renderGithub store)) "")
      as [?|_]; [done|].
    destruct (String.eqb_spec (selectedBranchName (renderGithub store)) "")
      as [?|_]; [done|].
    cbn [orb]. split; [by split|].
    intros Hno. fold table. fold cleared.
    destruct (findKeyEndingWith "readme.md" items) as [readmePath|];
      [|destruct (findKeyEndingWith "index.html" items) as [htmlPath|]];
      try (rewrite handleFileSelect_no_fetch by (left; apply Hno));
      by repeat split.
  - apply placeholderTable_lookup.
  - apply placeholderTable_rooted.
  - apply changedFiles_same.
  - apply handleDownloadProject_no_text. apply placeholderTable_no_text.
Qed.

Lemma handleLoadRepo_placeholders_witness :
  let app' :=
    handleLoadRepo sample_local_render
      (Some [mkTreeItem "README.md" "sha-r"; mkTreeItem "src/app.js" "sha-s"])
      sample_remote sample_local_app in
  app' = sample_local_app
  /\ fileSystem (appStore
       (handleLoadRepo
          {| renderFileSystem := sample_b; renderGithub := sample_github |}
          (Some [mkTreeItem "README.md" "sha-r"; mkTreeItem "src/app.js" "sha-s"])
          sample_remote sample_local_app))
     = Some {[ "/README.md" := None; "/src/app.js" := None ]}.
Proof.
  intros app'. split.
  - apply (handleLoadRepo_placeholders sample_local_render [] sample_remote
             sample_local_app). left. reflexivity.
  - destruct (handleLoadRepo_placeholders
                {| renderFileSystem := sample_b; renderGithub := sample_github |}
                [mkTreeItem "README.md" "sha-r"; mkTreeItem "src/app.js" "sha-s"]
                sample_remote sample_local_app) as (_ & Hload & _).
    destruct Hload as [_ Hok]; [discriminate | discriminate |].
    destruct Hok as (Hstore & _).
    + intros p. unfold sample_b. simpl.
      rewrite (insert_union_singleton_l (M := gmap string)).
      rewrite lookup_union, !lookup_singleton.
      repeat case_decide; simpl; discriminate.
    + rewrite Hstore. vm_compute. reflexivity.
Defined.

(** ** Terminal commands and uploads *)

Section TerminalAndUpload.
Implicit Types (fs : FileSystemState).

Lemma applyChanges_lookup fs (changes : list FileSystemChangeAction) (p : string) :
  p <> "__proto__" ->
  foldl applyChange fs changes !! p
  = match last (filter (fun c => changePath c = p) changes) with
    | Some c =>
        match action c with
        | Delete => None
        | _ => Some (Some (default "" (changeContent c)))
        end
    | None => fs !! p
    end.
Proof.
  intros Hproto.
  induction changes as [|c changes IH] using rev_ind; [done|].
  rewrite foldl_app, filter_app. simpl.
  destruct (decide (changePath c = p)) as [Hc|Hc].
  - rewrite filter_cons_True by exact Hc. rewrite filter_nil, last_snoc.
    unfold applyChange. rewrite <- Hc in Hproto |- *.
    destruct (action c);
      [by apply set_lookup_eq .. | apply lookup_delete_eq].
  - rewrite filter_cons_False by exact Hc. rewrite filter_nil, app_nil_r.
    unfold applyChange.
    destruct (action c);
      [rewrite set_lookup_ne by done .. | rewrite lookup_delete_ne by done];
      exact IH.
Qed.

Lemma applyChanges_proto fs (changes : list FileSystemChangeAction) :
  fs !! "__proto__" = None -> foldl applyChange fs changes !! "__proto__" = None.
Proof.
  intros Hnone.
  induction changes as [|c changes IH] using rev_ind; [exact Hnone|].
  rewrite foldl_app. simpl. unfold applyChange at 1.
  destruct (decide (changePath c = "__proto__")) as [->|Hc].
  - destruct (action c);
      [by rewrite set_proto .. | apply lookup_delete_eq].
  - destruct (action c);
      [rewrite set_lookup_ne by done .. | rewrite lookup_delete_ne by done];
      exact IH.
Qed.

Lemma last_filter_cons {A} (P : A -> Prop) `{!forall x, Decision (P x)}
    (x : A) (l : list A) :
  last (filter P (x :: l))
  = match last (filter P l) with
    | Some y => Some y
    | None => if decide (P x) then Some x else None
    end.
Proof.
  destruct (decide (P x)) as [Hx|Hx].
  - rewrite filter_cons_True by exact Hx. apply last_cons.
  - rewrite filter_cons_False by exact Hx. by destruct (last (filter P l)).
Qed.

(** What the loop of an upload returns: the first archive when there is one,
    otherwise the table of the readable files, the last file of a name
    winning. *)
Lemma uploadLoop_spec (files : list UploadedFile) (updates : FileSystemState) :
  match List.find (fun f => JsString.endsWith (fileName f) ".zip") files with
  | Some zip => uploadLoop files updates = inr zip
  | None =>
      exists collected,
        uploadLoop files updates = inl collected
        /\ forall p,
             collected !! p
             = match last (filter (fun f => "/" +:+ fileName f = p
                                            /\ is_Some (fileText f)) files) with
               | Some f => Some (fileText f)
               | None => updates !! p
               end
  end.
Proof.
  revert updates. induction files as [|f files IH]; intros updates.
  - simpl. by exists updates.
  - simpl. destruct (JsString.endsWith (fileName f) ".zip"); [done|].
    destruct (fileText f) as [content|] eqn:Htext.
    + specialize (IH (<["/" +:+ fileName f := Some content]> updates)).
      destruct (List.find _ files) as [zip|]; [exact IH|].
      destruct IH as (collected & Hrun & Hlook). exists collected.
      split; [exact Hrun|]. intros p. rewrite Hlook, last_filter_cons.
      destruct (last (filter _ files)) as [g|]; [done|].
      destruct (decide ("/" +:+ fileName f = p /\ is_Some (fileText f)))
        as [[<- _]|Hno].
      * by rewrite lookup_insert_eq, Htext.
      * rewrite lookup_insert_ne; [done|]. intros Hp. apply Hno.
        split; [exact Hp|]. by rewrite Htext.
    + specialize (IH updates).
      destruct (List.find _ files) as [zip|]; [exact IH|].
      destruct IH as (collected & Hrun & Hlook). exists collected.
      split; [exact Hrun|]. intros p. rewrite Hlook, last_filter_cons.
      destruct (last (filter _ files)) as [g|]; [done|].
      rewrite decide_False; [done|]. rewrite Htext. by intros [_ [? ?]].
Qed.
End TerminalAndUpload.

(** X12. A terminal command changes the table only when it returns a
    non-empty list of actions: a rejected command, a result without actions
    and an empty list leave the store as it is.  Otherwise the rendered table
    is written with a snapshot after the actions have been applied in order:
    a path holds what the last action on it says (nothing after a delete,
    the given content, or the empty text when none is given, after a create
    or an update), and a path no action names keeps its entry.  The path
    [__proto__] is the exception: on a table that does not bind it no action
    binds it (the assignment runs the setter of the object prototype). *)
Theorem handleTerminalSubmit_last_action_wins
    (fileSystem0 : FileSystemState) (st : StoreState)
    (change : FileSystemChangeAction) (changes : list FileSystemChangeAction) :
  handleTerminalSubmit fileSystem0 None st = st
  /\ handleTerminalSubmit fileSystem0 (Some None) st = st
  /\ handleTerminalSubmit fileSystem0 (Some (Some [])) st = st
  /\ exists newFs,
       handleTerminalSubmit fileSystem0 (Some (Some (change :: changes))) st
       = setFileSystem newFs true st
       /\ (forall p,
             p <> "__proto__" ->
             newFs !! p
             = match last (filter (fun c => changePath c = p)
                             (change :: changes)) with
               | Some c =>
                   match action c with
                   | Delete => None
                   | _ => Some (Some (default "" (changeContent c)))
                   end
               | None => fileSystem0 !! p
               end)
       /\ (fileSystem0 !! "__proto__" = None -> newFs !! "__proto__" = None).
Proof.
  repeat split.
  exists (foldl applyChange fileSystem0 (change :: changes)).
  split; [reflexivity|]. split.
  - intros p. apply applyChanges_lookup.
  - apply applyChanges_proto.
Qed.

(** X13. An upload that contains a file whose name ends in [.zip] writes
    nothing, not even the text files listed before it: the first such file
    becomes the pending archive and the store is left as it is.  An upload
    without one sets no pending archive; it leaves the store as it is when no
    file could be read, and otherwise writes, with a snapshot, the readable
    files over the rendered table, each under [/] followed by its name, the
    last file of a name winning and every other path keeping its entry. *)
Theorem handleFileUpload_zip_or_texts
    (fileSystem0 : FileSystemState) (files : list UploadedFile) (st : StoreState) :
  match List.find (fun f => JsString.endsWith (fileName f) ".zip") files with
  | Some zip => handleFileUpload fileSystem0 files st = (st, Some zip)
  | None =>
      exists collected,
        (forall p,
           collected !! p
           = match last (filter (fun f => "/" +:+ fileName f = p
                                          /\ is_Some (fileText f)) files) with
             | Some f => Some (fileText f)
             | None => None
             end)
        /\ (collected = ∅ -> handleFileUpload fileSystem0 files st = (st, None))
        /\ (collected <> ∅ ->
            handleFileUpload fileSystem0 files st
            = (setFileSystem (collected ∪ fileSystem0) true st, None)
            /\ forall p, collected !! p = None ->
                         (collected ∪ fileSystem0) !! p = fileSystem0 !! p)
  end.
Proof.
  pose proof (uploadLoop_spec files ∅) as Hloop. unfold handleFileUpload.
  destruct (List.find _ files) as [zip|]; [by rewrite Hloop|].
  destruct Hloop as (collected & -> & Hlook). exists collected.
  split; [intros p; rewrite Hlook; by rewrite lookup_empty|]. split.
  - intros ->. by rewrite bool_decide_eq_true_2.
  - intros Hne. rewrite bool_decide_eq_false_2 by exact Hne.
    split; [reflexivity|]. intros p Hp. by rewrite lookup_union_r.
Qed.

Lemma handleFileUpload_zip_or_texts_witness :
  handleFileUpload sample_a
    [ mkUpload "notes.txt" (Some "n") None;
      mkUpload "site.zip" None (Some import_example);
      mkUpload "late.txt" (Some "l") None ]
    (loadStateFromDB sample_a)
  = (loadStateFromDB sample_a,
     Some (mkUpload "site.zip" None (Some import_example))).
Proof.
  exact (handleFileUpload_zip_or_texts sample_a
           [ mkUpload "notes.txt" (Some "n") None;
             mkUpload "site.zip" None (Some import_example);
             mkUpload "late.txt" (Some "l") None ]
           (loadStateFromDB sample_a)).
Defined.

(** ** Paths written by an unpack or an upload begin with a slash *)

Section RootedPaths.
Implicit Types (s t : string) (fs : FileSystemState).

Lemma substring_prefix s t : String.substring 0 (String.length s) (s +:+ t) = s.
Proof.
  induction s as [|a s IH].
  - by destruct t.
  - change (String a (String.substring 0 (String.length s) (s +:+ t)) = String a s).
    by rewrite IH.
Qed.

Lemma dropLast_snoc s : JsString.dropLast (s +:+ "/") = s.
Proof.
  unfold JsString.dropLast. rewrite length_append. simpl.
  replace (String.length s + 1 - 1)%nat with (String.length s) by lia.
  apply substring_prefix.
Qed.

Lemma cleanDestinationPath_rooted (destinationPath : string) :
  cleanDestinationPath destinationPath = ""
  \/ JsString.startsWith (cleanDestinationPath destinationPath) "/" = true.
Proof.
  unfold cleanDestinationPath.
  set (trimmed := JsString.trim destinationPath).
  set (rooted := if negb (JsString.startsWith trimmed "/")
                 then "/" +:+ trimmed else trimmed).
  assert (Hrooted : JsString.startsWith rooted "/" = true).
  { subst rooted. destruct (JsString.startsWith trimmed "/") eqn:Ht; simpl;
      [exact Ht | apply startsWith_slash_cons]. }
  destruct (JsString.endsWith rooted "/") eqn:Hends.
  - apply endsWith_inv in Hends as [q Hq]. rewrite Hq, dropLast_snoc.
    destruct q as [|a q]; [by left|].
    destruct (String.eqb_spec (String a q) "/") as [_|_]; [by left|]. right.
    rewrite Hq in Hrooted. apply startsWith_slash_inv in Hrooted as [rest Hrest].
    change (String a (q +:+ "/") = String "/" rest) in Hrest.
    injection Hrest as -> _. apply (startsWith_slash_cons q).
  - destruct (String.eqb_spec rooted "/") as [_|_]; [by left | by right].
Qed.

Lemma replace_keeps_leading_slash s pattern :
  JsString.startsWith s "/" = true ->
  JsString.startsWith (JsString.replace s pattern "/") "/" = true.
Proof.
  intros Hs. unfold JsString.replace.
  destruct (String.index 0 pattern s) as [[|i]|]; [| |exact Hs].
  - replace (String.substring 0 0 s) with "" by (by destruct s).
    apply (startsWith_slash_cons _).
  - apply startsWith_slash_inv in Hs as [rest ->].
    change (String.substring 0 (S i) (String "/" rest))
      with (String "/" (String.substring 0 i rest)).
    apply (startsWith_slash_cons (_ +:+ _)).
Qed.

Lemma fullPath_rooted clean relativePath :
  clean = "" \/ JsString.startsWith clean "/" = true ->
  JsString.startsWith (fullPath clean relativePath) "/" = true.
Proof.
  intros Hclean. unfold fullPath. apply replace_keeps_leading_slash.
  destruct Hclean as [->|Hclean].
  - apply (startsWith_slash_cons relativePath).
  - by apply startsWith_app_slash.
Qed.
End RootedPaths.

(** X14. Whatever destination is typed and whatever the archive holds, every
    path that an unpack writes begins with a slash, and so does every path
    that an upload of text files writes; hence a table whose paths all begin
    with a slash still has that property after an unpack. *)
Theorem unpack_and_upload_write_rooted_paths
    (fileSystem0 : FileSystemState) (contents : ArchiveEntries)
    (destinationPath : string) (files : list UploadedFile) :
  (forall p,
     is_Some (newFileUpdates (cleanDestinationPath destinationPath) contents !! p) ->
     JsString.startsWith p "/" = true)
  /\ (forall collected p,
        uploadLoop files ∅ = inl collected -> is_Some (collected !! p) ->
        JsString.startsWith p "/" = true)
  /\ ((forall p, is_Some (fileSystem0 !! p) -> JsString.startsWith p "/" = true) ->
      forall p,
        is_Some ((newFileUpdates (cleanDestinationPath destinationPath) contents
                    ∪ fileSystem0) !! p) ->
        JsString.startsWith p "/" = true).
Proof.
  assert (Hunpack : forall p,
    is_Some (newFileUpdates (cleanDestinationPath destinationPath) contents !! p) ->
    JsString.startsWith p "/" = true).
  { intros p [v Hv].
    apply newFileUpdates_provenance in Hv as (rel & entry & text & _ & _ & _ & -> & _).
    apply fullPath_rooted, cleanDestinationPath_rooted. }
  split; [exact Hunpack|]. split.
  - intros collected p Hrun [v Hv].
    pose proof (uploadLoop_spec files ∅) as Hspec.
    destruct (List.find _ files) as [zip|]; [congruence|].
    destruct Hspec as (collected' & Hrun' & Hlook).
    assert (collected' = collected) as -> by congruence.
    rewrite Hlook in Hv.
    destruct (last (filter _ files)) as [f|] eqn:Hlast;
      [|by rewrite lookup_empty in Hv].
    apply last_Some_elem_of, list_elem_of_filter in Hlast as [[<- _] _].
    apply startsWith_slash_cons.
  - intros Hrooted p [v Hv]. apply lookup_union_Some_raw in Hv as [Hv|[_ Hv]].
    + apply Hunpack. by exists v.
    + apply Hrooted. by exists v.
Qed.

Lemma unpack_and_upload_write_rooted_paths_witness :
  JsString.startsWith "/proj/dir/b.txt" "/" = true.
Proof.
  destruct (unpack_and_upload_write_rooted_paths ∅ import_example " proj/ " [])
    as (Hunpack & _).
  apply Hunpack. vm_compute. by eexists.
Defined.

(** ** The preview reads the table through its text entries only *)

Section PreviewFacts.
Variable pathname : string -> string -> option string.
Variable parseFromString : string -> Dom.Node.
Variable markedParse : string -> string.
Implicit Types (fs : FileSystemState) (n : Dom.Node).

Lemma Node_forall_ind (P : Dom.Node -> Prop) :
  (forall name attributes children,
     Forall P children -> P (Dom.Element name attributes children)) ->
  (forall data, P (Dom.Text data)) ->
  (forall data, P (Dom.Comment data)) ->
  forall n, P n.
Proof.
  intros HElement HText HComment. fix IH 1.
  intros [name attributes children|data|data];
    [|apply HText|apply HComment].
  apply HElement. induction children as [|c children IHchildren].
  - constructor.
  - constructor; [apply IH | exact IHchildren].
Qed.

Section SameText.
Variables fs1 fs2 : FileSystemState.
Hypothesis same_text : forall p, textAt fs1 p = textAt fs2 p.

Lemma inlining_same_text htmlPath reference :
  inliningWith pathname fs1 htmlPath reference
  = inliningWith pathname fs2 htmlPath reference.
Proof.
  unfold inliningWith. destruct reference as [ref|]; [|done].
  destruct (negb (String.eqb ref "") && negb (JsString.startsWith ref "http"));
    [|done].
  destruct (resolvePathWith pathname htmlPath ref) as [filePath|]; [|done].
  by rewrite same_text.
Qed.

Lemma inlineLinks_same_text htmlPath n :
  inlineLinksWith pathname fs1 htmlPath n
  = inlineLinksWith pathname fs2 htmlPath n.
Proof.
  induction n as [name attributes children IH|data|data] using Node_forall_ind;
    [|done|done].
  simpl.
  match goal with
  | |- match ?a with _ => _ end = match ?b with _ => _ end =>
      assert (Hinner : a = b)
  end.
  { clear -IH. induction IH as [|c l Hc _ IHl]; [done|].
    simpl. by rewrite Hc, IHl. }
  rewrite Hinner.
  match goal with
  | |- match ?b with _ => _ end = _ => destruct b as [[styles children']|]
  end; [|done].
  by rewrite inlining_same_text.
Qed.

Lemma inlineScripts_same_text htmlPath n :
  inlineScriptsWith pathname fs1 htmlPath n
  = inlineScriptsWith pathname fs2 htmlPath n.
Proof.
  induction n as [name attributes children IH|data|data] using Node_forall_ind;
    [|done|done].
  simpl.
  match goal with
  | |- match ?a with _ => _ end = match ?b with _ => _ end =>
      assert (Hinner : a = b)
  end.
  { clear -IH. induction IH as [|c l Hc _ IHl]; [done|].
    simpl. by rewrite Hc, IHl. }
  rewrite Hinner.
  match goal with
  | |- match ?b with _ => _ end = _ => destruct b as [children'|]
  end; [|done].
  by rewrite inlining_same_text.
Qed.

Lemma htmlSrcDoc_same_text htmlPath indexHtml :
  htmlSrcDocWith pathname parseFromString fs1 htmlPath indexHtml
  = htmlSrcDocWith pathname parseFromString fs2 htmlPath indexHtml.
Proof.
  unfold htmlSrcDocWith. rewrite inlineLinks_same_text.
  destruct (inlineLinksWith pathname fs2 htmlPath (parseFromString indexHtml))
    as [[styles [|documentElement [|? ?]]]|]; try done.
  destruct (Dom.appendToHead _ documentElement) as [withStyles|]; [|done].
  by rewrite inlineScripts_same_text.
Qed.

Lemma firstScriptFile_same_text (paths : list string) :
  firstScriptFile fs1 paths = firstScriptFile fs2 paths.
Proof.
  induction paths as [|p paths IH]; [done|].
  simpl. rewrite same_text. by rewrite IH.
Qed.

Lemma updatePreview_same_text previewRoot :
  updatePreviewWith pathname parseFromString markedParse fs1 previewRoot
  = updatePreviewWith pathname parseFromString markedParse fs2 previewRoot.
Proof.
  unfold updatePreviewWith. destruct previewRoot as [root|]; [|done].
  destruct (String.eqb root ""); [done|].
  rewrite !same_text, firstScriptFile_same_text.
  destruct (textAt fs2 (previewBasePath root +:+ "index.html")) as [indexHtml|];
    [|done].
  by rewrite htmlSrcDoc_same_text.
Qed.
End SameText.

Lemma firstScriptFile_no_text fs (paths : list string) :
  (forall p, textAt fs p = None) -> firstScriptFile fs paths = None.
Proof.
  intros Hnone. induction paths as [|p paths IH]; [done|].
  simpl. by rewrite Hnone.
Qed.

Lemma eqb_snoc_slash (r : string) : r <> "" -> String.eqb (r +:+ "/") "/" = false.
Proof.
  intros Hr. apply String.eqb_neq. destruct r as [|a r]; [done|].
  change (String a (r +:+ "/") <> String "/" ""). intros [= _ Hrest].
  by destruct r.
Qed.

Lemma previewBasePath_closing_slash (root : string) :
  root <> "" -> JsString.endsWith root "/" = false ->
  previewBasePath (root +:+ "/") = previewBasePath root.
Proof.
  intros Hroot Hends. unfold previewBasePath.
  rewrite eqb_snoc_slash by exact Hroot. rewrite endsWith_app, Hends.
  destruct (String.eqb_spec root "/") as [->|_]; [done|]. done.
Qed.
End PreviewFacts.

(** X15. A preview root written with or without its closing slash gives the
    same preview, whatever the URL constructor, the HTML parser and the
    Markdown renderer do. *)
Theorem updatePreview_closing_slash
    (pathname : string -> string -> option string)
    (parseFromString : string -> Dom.Node) (markedParse : string -> string)
    (fs : FileSystemState) (root : string) :
  root <> "" -> JsString.endsWith root "/" = false ->
  updatePreviewWith pathname parseFromString markedParse fs (Some (root +:+ "/"))
  = updatePreviewWith pathname parseFromString markedParse fs (Some root).
Proof.
  intros Hroot Hends. unfold updatePreviewWith.
  rewrite previewBasePath_closing_slash by assumption.
  destruct (String.eqb_spec root "") as [?|_]; [done|].
  destruct (String.eqb_spec (root +:+ "/") "") as [Hnil|_]; [|done].
  by destruct root.
Qed.

Lemma updatePreview_closing_slash_witness :
  updatePreview (fun _ => example_document) (fun md => md) example_table
    (Some "/proj/")
  = updatePreview (fun _ => example_document) (fun md => md) example_table
      (Some "/proj").
Proof.
  apply (updatePreview_closing_slash URL.pathname _ _ example_table "/proj");
    [discriminate | reflexivity].
Defined.

(** X16. The preview reads the table through its text entries only: two
    tables with the same text at every path (one may hold unfetched entries
    where the other has none) give the same preview for every root, URL
    constructor, parser and Markdown renderer.  In particular a table without
    any text, like the table of a repository that was just loaded, previews
    as the notice that nothing can be shown, for every non-empty root. *)
Theorem updatePreview_ignores_unfetched_entries
    (pathname : string -> string -> option string)
    (parseFromString : string -> Dom.Node) (markedParse : string -> string)
    (fs1 fs2 : FileSystemState) (previewRoot : option string) :
  (forall p, textAt fs1 p = textAt fs2 p) ->
  updatePreviewWith pathname parseFromString markedParse fs1 previewRoot
  = updatePreviewWith pathname parseFromString markedParse fs2 previewRoot
  /\ ((forall p, textAt fs1 p = None) ->
      forall root, root <> "" ->
        updatePreviewWith pathname parseFromString markedParse fs1 (Some root)
        = Some NothingToPreview).
Proof.
  intros Hsame. split; [by apply updatePreview_same_text|].
  intros Hnone root Hroot. unfold updatePreviewWith.
  destruct (String.eqb_spec root "") as [?|_]; [done|].
  rewrite !Hnone, firstScriptFile_no_text by exact Hnone.
  rewrite !bool_decide_eq_false_2 by (by intros [? ?]). done.
Qed.

Lemma updatePreview_ignores_unfetched_entries_witness :
  updatePreview (fun _ => example_document) (fun md => md)
    {[ "/index.html" := None; "/README.md" := None ]} (Some "/")
  = Some NothingToPreview.
Proof.
  destruct (updatePreview_ignores_unfetched_entries URL.pathname
              (fun _ => example_document) (fun md => md)
              {[ "/index.html" := None; "/README.md" := None ]} ∅ (Some "/"))
    as [_ Hnothing].
  - intros p. unfold textAt.
    rewrite (insert_union_singleton_l (M := gmap string)).
    rewrite lookup_union, lookup_empty, !lookup_singleton.
    by repeat case_decide.
  - apply Hnothing; [|discriminate].
    intros p. unfold textAt.
    rewrite (insert_union_singleton_l (M := gmap string)).
    rewrite lookup_union, !lookup_singleton.
    by repeat case_decide.
Defined.

(** ** The code fallback escapes markup *)

Section EscapeCode.
Implicit Types (s t : string) (x c : ascii).

Lemma chars_append s t :
  list_ascii_of_string (s +:+ t)
  = list_ascii_of_string s ++ list_ascii_of_string t.
Proof.
  induction s as [|a s IH]; [done|].
  change (a :: list_ascii_of_string (s +:+ t)
          = a :: (list_ascii_of_string s ++ list_ascii_of_string t)).
  by rewrite IH.
Qed.

Lemma replaceAll_chars s c replacement x :
  In x (list_ascii_of_string (JsString.replaceAll s c replacement)) ->
  (In x (list_ascii_of_string s) /\ x <> c)
  \/ In x (list_ascii_of_string replacement).
Proof.
  induction s as [|a s IH]; [done|].
  simpl. rewrite chars_append. intros [Hhead|Htail]%in_app_or.
  - destruct (Ascii.eqb_spec a c) as [->|Hne]; [by right|].
    simpl in Hhead. destruct Hhead as [<-|[]]. left. split; [by left|done].
  - destruct (IH Htail) as [[Hin Hne]|Hin]; [|by right].
    left. split; [by right|done].
Qed.

Lemma replaceAll_absent s c replacement :
  ~ In c (list_ascii_of_string s) -> JsString.replaceAll s c replacement = s.
Proof.
  induction s as [|a s IH]; [done|].
  intros Habsent. simpl.
  destruct (Ascii.eqb_spec a c) as [->|Hne]; [exfalso; apply Habsent; by left|].
  rewrite IH; [done|]. intros Hin. apply Habsent. by right.
Qed.
End EscapeCode.

(** X17. The source shown by the code fallback is escaped: whatever the file
    holds, the escaped text contains none of the characters [<], [>], the
    double quote and the single quote; and a text that has none of these nor
    [&] is shown as it is. *)
Theorem escapeCode_removes_markup (content : string) :
  (forall x, In x (list_ascii_of_string (escapeCode content)) ->
             x <> "<"%char /\ x <> ">"%char /\ x <> "034"%char /\ x <> "'"%char)
  /\ ((forall x, In x (list_ascii_of_string content) ->
                 x <> "&"%char /\ x <> "<"%char /\ x <> ">"%char
                 /\ x <> "034"%char /\ x <> "'"%char) ->
      escapeCode content = content).
Proof.
  split.
  - intros x Hx. unfold escapeCode in Hx.
    apply replaceAll_chars in Hx as [[Hx Hq1]|Hx];
      [|simpl in Hx; repeat (destruct Hx as [<-|Hx]; [repeat split; discriminate|]);
        destruct Hx].
    apply replaceAll_chars in Hx as [[Hx Hq2]|Hx];
      [|simpl in Hx; repeat (destruct Hx as [<-|Hx]; [repeat split; discriminate|]);
        destruct Hx].
    apply replaceAll_chars in Hx as [[Hx Hgt]|Hx];
      [|simpl in Hx; repeat (destruct Hx as [<-|Hx]; [repeat split; discriminate|]);
        destruct Hx].
    apply replaceAll_chars in Hx as [[Hx Hlt]|Hx];
      [|simpl in Hx; repeat (destruct Hx as [<-|Hx]; [repeat split; discriminate|]);
        destruct Hx].
    done.
  - intros Hplain. unfold escapeCode.
    assert (Habsent : forall c : ascii,
              c = "&"%char \/ c = "<"%char \/ c = ">"%char
              \/ c = "034"%char \/ c = "'"%char ->
              ~ In c (list_ascii_of_string content)).
    { intros c Hc Hin. destruct (Hplain c Hin) as (? & ? & ? & ? & ?).
      destruct Hc as [->|[->|[->|[->| ->]]]]; done. }
    rewrite (replaceAll_absent content "&") by (apply Habsent; tauto).
    rewrite (replaceAll_absent content "<") by (apply Habsent; tauto).
    rewrite (replaceAll_absent content ">") by (apply Habsent; tauto).
    rewrite (replaceAll_absent content "034") by (apply Habsent; tauto).
    apply replaceAll_absent, Habsent. tauto.
Qed.

Lemma escapeCode_removes_markup_witness :
  escapeCode "const a = 1;" = "const a = 1;"
  /\ escapeCode "if (a < b && c > 'd') {}"
     = "if (a &lt; b &amp;&amp; c &gt; &#039;d&#039;) {}".
Proof.
  split; [|reflexivity].
  apply (escapeCode_removes_markup "const a = 1;").
  intros x Hx. simpl in Hx.
  repeat (destruct Hx as [<-|Hx]; [repeat split; discriminate|]). destruct Hx.
Defined.

(** ** The resolver looks at the directory of the base only *)

Section BaseDirectory.
Implicit Types (s t dir file : string) (c : ascii).

Lemma append_nil_r s : s +:+ "" = s.
Proof.
  induction s as [|a s IH]; [done|].
  change (String a (s +:+ "") = String a s). by rewrite IH.
Qed.

Lemma lastIndexOf_from_absent t c (i found : Z) :
  ~ In c (list_ascii_of_string t) ->
  JsString.lastIndexOf_from i t c found = found.
Proof.
  revert i found. induction t as [|a t IH]; intros i found Habsent; [done|].
  simpl. destruct (Ascii.eqb_spec a c) as [->|_];
    [exfalso; apply Habsent; by left|].
  apply IH. intros Hin. apply Habsent. by right.
Qed.

Lemma lastIndexOf_from_last s t c (i found : Z) :
  ~ In c (list_ascii_of_string t) ->
  JsString.lastIndexOf_from i (s +:+ String c t) c found
  = i + Z.of_nat (String.length s).
Proof.
  revert i found. induction s as [|a s IH]; intros i found Habsent.
  - change (JsString.lastIndexOf_from (i + 1) t c
              (if Ascii.eqb c c then i else found) = i + 0).
    rewrite Ascii.eqb_refl, lastIndexOf_from_absent by exact Habsent. lia.
  - change (JsString.lastIndexOf_from (i + 1) (s +:+ String c t) c
              (if Ascii.eqb a c then i else found)
            = i + Z.of_nat (S (String.length s))).
    rewrite IH by exact Habsent. lia.
Qed.

Lemma endsWith_slash_last s :
  JsString.endsWith s "/" = true ->
  last (list_ascii_of_string s) = Some "/"%char.
Proof.
  intros [q ->]%endsWith_inv. rewrite chars_append. apply last_snoc.
Qed.

(** The directory that [resolvePath] takes from a base [dir/file]. *)
Lemma baseDir_of_file dir file :
  ~ In "/"%char (list_ascii_of_string file) ->
  (if JsString.endsWith (dir +:+ "/" +:+ file) "/" then dir +:+ "/" +:+ file
   else JsString.substring (dir +:+ "/" +:+ file) 0
          (JsString.lastIndexOf (dir +:+ "/" +:+ file) JsString.slash + 1))
  = dir +:+ "/".
Proof.
  intros Hfile. destruct file as [|a file].
  - change ("/" +:+ "") with "/". by rewrite endsWith_app.
  - destruct (JsString.endsWith (dir +:+ "/" +:+ String a file) "/") eqn:Hends.
    + exfalso. apply Hfile. apply endsWith_slash_last in Hends.
      rewrite chars_append in Hends.
      change (list_ascii_of_string ("/" +:+ String a file))
        with ("/"%char :: a :: list_ascii_of_string file) in Hends.
      rewrite last_app in Hends. rewrite last_cons_cons in Hends.
      destruct (last (a :: list_ascii_of_string file)) as [z|] eqn:Hlast;
        [|by apply last_None in Hlast].
      injection Hends as ->. apply list_elem_of_In. by eapply last_Some_elem_of.
    + unfold JsString.lastIndexOf, JsString.slash.
      change ("/" +:+ String a file) with (String "/" (String a file)).
      rewrite lastIndexOf_from_last by exact Hfile.
      unfold JsString.substring, JsString.clamp.
      change (String "/" (String a file)) with ("/" +:+ String a file).
      rewrite !length_append.
      replace (Z.to_nat (Z.max 0 (Z.min 0 _))) with 0%nat by lia.
      replace (Z.to_nat (Z.max 0 (Z.min (0 + Z.of_nat (String.length dir) + 1) _)))
        with (String.length dir + 1)%nat by (simpl; lia).
      rewrite Nat.min_0_l, Nat.max_0_l, Nat.sub_0_r.
      rewrite <- append_assoc.
      replace (String.length dir + 1)%nat with (String.length (dir +:+ "/"))
        by (rewrite length_append; done).
      apply substring_prefix.
Qed.
End BaseDirectory.

(** X18. [resolvePath] uses the base only through its directory: against a
    base [dir/file], with no slash in [file], every reference resolves as it
    does against [dir/], whatever the URL constructor does. *)
Theorem resolvePath_uses_base_directory
    (pathname : string -> string -> option string)
    (dir file relative : string) :
  ~ In "/"%char (list_ascii_of_string file) ->
  resolvePathWith pathname (dir +:+ "/" +:+ file) relative
  = resolvePathWith pathname (dir +:+ "/") relative
  /\ resolvePath (dir +:+ "/" +:+ file) relative
     = resolvePath (dir +:+ "/") relative.
Proof.
  intros Hfile.
  assert (Hany : forall f, resolvePathWith f (dir +:+ "/" +:+ file) relative
                           = resolvePathWith f (dir +:+ "/") relative).
  { intros f. unfold resolvePathWith.
    rewrite (baseDir_of_file dir file Hfile). by rewrite endsWith_app. }
  split; [apply Hany | apply (Hany URL.pathname)].
Qed.

Lemma resolvePath_uses_base_directory_witness :
  resolvePath "/a/b/page.html" "../c.css" = resolvePath "/a/b/" "../c.css".
Proof.
  apply (resolvePath_uses_base_directory URL.pathname "/a/b" "page.html" "../c.css").
  simpl. intros Hin.
  repeat (destruct Hin as [Hin|Hin]; [discriminate Hin|]). destruct Hin.
Defined.

(** ** A fetched file after undo and redo *)

(** X19. A fetch records no snapshot.  So when a file of the live table (the
    snapshot under the cursor, with a snapshot before it) has been fetched,
    an [undo] followed by a [redo] gives back the store from before the fetch,
    where the file is an unfetched entry again, while the baseline keeps the
    fetched content: the calculator then reports the file as modified (unless
    its path ends in [/.placeholder]), which it did not before the fetch. *)
Theorem fetched_file_after_undo_redo
    (store : Render) (getFileContent : string -> option string) (p : string)
    (app : AppState) (item : TreeItem) (content : string)
    (baseline : FileSystemState) :
  renderFileSystem store !! p = Some None ->
  initialGithubFileSystem (renderGithub store) = Some baseline ->
  baseline !! p = Some None ->
  selectedRepoFullName (renderGithub store) <> "" ->
  List.find (fun item => String.eqb ("/" +:+ treePath item) p)
    (gitTree (renderGithub store)) = Some item ->
  getFileContent (treeSha item) = Some content ->
  in_range (appStore app) -> 0 < currentHistoryIndex (appStore app) ->
  synced (appStore app) ->
  fileSystem (appStore app) = Some (renderFileSystem store) ->
  let app' := handleFileSelect store getFileContent p app in
  redo (undo (appStore app')) = appStore app
  /\ fileSystem (redo (undo (appStore app'))) = Some (renderFileSystem store)
  /\ initialGithubFileSystem (appGithub app')
     = Some (<[p := Some content]> baseline)
  /\ (mkChange p modified
        ∈ changedFiles (renderFileSystem store)
            (Some (<[p := Some content]> baseline))
      <-> isPlaceholderPath p = false)
  /\ mkChange p modified ∉ changedFiles (renderFileSystem store) (Some baseline).
Proof.
  intros Hp Hbase Hbp Hrepo Hitem Hcontent Hrange Hpos Hsynced Hlive app'.
  subst app'.
  rewrite (handleFileSelect_fetch store getFileContent p app item content)
    by assumption.
  rewrite Hbase. cbn [appStore appGithub initialGithubFileSystem default].
  assert (Hback : redo (undo (setFileSystem (<[p := Some content]>
                                               (renderFileSystem store))
                                false (appStore app))) = appStore app).
  { change (setFileSystem ?fs false (appStore app))
      with (writes false [fs] (appStore app)).
    rewrite redo_undo_after_unsnapshotted by assumption.
    rewrite <- Hsynced. symmetry. apply store_eta. }
  rewrite Hback. split; [reflexivity|]. split; [exact Hlive|].
  split; [reflexivity|]. split.
  - rewrite elem_of_changedFiles. simpl.
    rewrite (statusOf_bound _ _ p (Some content) None)
      by (first [apply lookup_insert_eq | exact Hp]).
    rewrite bool_decide_eq_false_2 by done.
    split; [by intros [_ ?] | by split].
  - rewrite elem_of_changedFiles. simpl.
    rewrite (statusOf_bound _ _ p None None) by assumption.
    rewrite bool_decide_eq_true_2 by done. by intros [? _].
Qed.

Lemma fetched_file_after_undo_redo_witness :
  let app' := handleFileSelect sample_render sample_remote "/a.txt" sample_app in
  fileSystem (redo (undo (appStore app')))
  = Some {[ "/a.txt" := None; "/b.txt" := None ]}
  /\ mkChange "/a.txt" modified
       ∈ changedFiles {[ "/a.txt" := None; "/b.txt" := None ]}
           (Some (<["/a.txt" := Some "remote a"]>
                    {[ "/a.txt" := None; "/b.txt" := None ]})).
Proof.
  intros app'.
  destruct (fetched_file_after_undo_redo sample_render sample_remote "/a.txt"
              sample_app (mkTreeItem "a.txt" "sha-a") "remote a"
              {[ "/a.txt" := None; "/b.txt" := None ]})
    as (_ & Hlive & _ & Hmodified & _);
    [reflexivity | reflexivity | reflexivity | discriminate | reflexivity
    | reflexivity | unfold in_range; simpl; lia | simpl; lia | reflexivity
    | reflexivity |].
  split; [exact Hlive|]. apply Hmodified. reflexivity.
Defined.

(** ** An unpack that writes nothing *)

Lemma newFileUpdates_nothing_readable (clean : string)
    (contents : ArchiveEntries) :
  (forall relativePath entry,
     (relativePath, entry) ∈ contents ->
     JSZip.dir entry = true \/ JSZip.asyncString entry = None) ->
  newFileUpdates clean contents = ∅.
Proof.
  intros Hnone. apply map_eq. intros p. rewrite lookup_empty.
  apply eq_None_not_Some. intros [v Hv].
  apply newFileUpdates_provenance in Hv
    as (rel & entry & text & Hrel & Hdir & Htext & _).
  destruct (Hnone rel entry Hrel); congruence.
Qed.

(** X20. Without a pending archive, or with bytes that do not load, an
    unpack leaves the store as it is.  With an archive that loads but holds
    no readable file member (only folders, or files whose text cannot be
    read), it changes no entry of the rendered table and still records it as
    a new snapshot: the cursor moves on by one and the snapshots after the
    old cursor are dropped. *)
Theorem unpack_without_readable_members
    (fileSystem0 : FileSystemState) (contents : ArchiveEntries)
    (destinationPath : string) (st : StoreState) :
  (forall relativePath entry,
     (relativePath, entry) ∈ contents ->
     JSZip.dir entry = true \/ JSZip.asyncString entry = None) ->
  handleConfirmUnpack fileSystem0 None destinationPath st = st
  /\ handleConfirmUnpack fileSystem0 (Some None) destinationPath st = st
  /\ handleConfirmUnpack fileSystem0 (Some (Some contents)) destinationPath st
     = setFileSystem fileSystem0 true st
  /\ (in_range st ->
      currentHistoryIndex
        (handleConfirmUnpack fileSystem0 (Some (Some contents)) destinationPath st)
      = currentHistoryIndex st + 1
      /\ fileSystemHistory
           (handleConfirmUnpack fileSystem0 (Some (Some contents)) destinationPath st)
         = take (Z.to_nat (currentHistoryIndex st) + 1) (fileSystemHistory st)
             ++ [fileSystem0]).
Proof.
  intros Hnone.
  assert (Hrun : handleConfirmUnpack fileSystem0 (Some (Some contents))
                   destinationPath st = setFileSystem fileSystem0 true st).
  { unfold handleConfirmUnpack.
    rewrite newFileUpdates_nothing_readable by exact Hnone.
    by rewrite (left_id_L ∅ (∪)). }
  split; [reflexivity|]. split; [reflexivity|]. split; [exact Hrun|].
  intros Hrange. rewrite Hrun.
  destruct (snapshot_write_history st fileSystem0 Hrange) as [Hh Hc].
  by split.
Qed.

Lemma unpack_without_readable_members_witness :
  handleConfirmUnpack sample_a
    (Some (Some [ ("dir/", JSZip.folder);
                  ("logo.png", JSZip.mkEntry false None) ]))
    "/proj" (loadStateFromDB sample_a)
  = setFileSystem sample_a true (loadStateFromDB sample_a).
Proof.
  apply (unpack_without_readable_members sample_a
           [ ("dir/", JSZip.folder); ("logo.png", JSZip.mkEntry false None) ]
           "/proj" (loadStateFromDB sample_a)).
  intros rel entry Hentry.
  apply elem_of_cons in Hentry as [[= _ ->]|Hentry]; [by left|].
  apply list_elem_of_singleton in Hentry as [= _ ->]. by right.
Defined.
